(** * ClipForge: the recording store, the Recorder and Library pages, and the
    replay ring buffer

    The TypeScript front end (ui/src/lib/tauri.ts, ui/src/stores/recording.ts,
    ui/src/pages/Recorder.tsx, ui/src/pages/Library.tsx) is embedded as it is
    written: every [async] function is a program of the [Async] monad whose
    [Await] nodes are the [await invoke(...)] points of the source, the Solid
    signals of a component are the fields of a store record, and the event
    listeners are the cases of [deliver].

    The core crate (ring buffer, replay controller, recording state
    machine) is not part of the front end; its definitions are marked as
    modelled from the specification. *)

From Stdlib Require Import ZArith NArith Lia Ascii String.
From Stdlib Require Import DecimalString DecimalPos DecimalZ QArith.
From stdpp Require Import base list strings gmap.

Local Open Scope Z_scope.

(** ** ui/src/lib/tauri.ts: the types that cross the IPC boundary *)

Module Tauri.

(** [RecordingState.status]: the union of four string literals. *)
Inductive Status : Set := Idle | Starting | Recording | Stopping.


Definition Status_eqb (a b : Status) : bool :=
  match a, b with
  | Idle, Idle | Starting, Starting | Recording, Recording
  | Stopping, Stopping => true
  | _, _ => false
  end.

(** [interface RecordingState]; a JS [number] that counts whole seconds is an
    integer, [string | null] is an option. *)
Record RecordingState : Set := mkRecordingState {
  status : Status;
  elapsed_secs : Z;
  file_path : option string
}.

(** The commands the front end passes to [invoke], with the arguments object
    of each. *)
Inductive Command : Set :=
| start_recording
| stop_recording
| get_recording_status
| toggle_replay_buffer
| save_replay_clip (seconds : option Z)
| get_replay_status
| delete_recording (id : string)
| listen (event : string).

(** The type a command's promise resolves with: the [Promise<T>] of the
    wrapper that issues it. [Promise<void>] resolves with no value, and the
    [UnlistenFn] of [listen] is kept abstract. *)
Definition Response (c : Command) : Type :=
  match c with
  | start_recording => unit
  | stop_recording => string
  | get_recording_status => RecordingState
  | toggle_replay_buffer => bool
  | save_replay_clip _ => string
  | get_replay_status => bool
  | delete_recording _ => unit
  | listen _ => unit
  end.

(** A settled promise. *)
Inductive Settled (A : Type) : Type :=
| Resolved (value : A)
| Rejected (error : string).
Arguments Resolved {A} value.
Arguments Rejected {A} error.

(** The events the store listens to, each with its payload. *)
Inductive Notification : Set :=
| recording_state_changed (payload : RecordingState)
| recording_timer (payload : Z)
| replay_state_changed (payload : bool).

Definition event_name (n : Notification) : string :=
  match n with
  | recording_state_changed _ => "recording-state-changed"
  | recording_timer _ => "recording-timer"
  | replay_state_changed _ => "replay-state-changed"
  end.

End Tauri.
Import Tauri.

(** ** Asynchronous functions

    An [async] function body over the signals [St] of a component: it reads
    and writes signals synchronously and suspends at every [await]. *)

Section AsyncMonad.
Context {St : Type}.

Inductive Async (A : Type) : Type :=
| Return (a : A)
| Read (k : St -> Async A)
| Update (f : St -> St) (k : Async A)
| Await (c : Command) (k : Response c -> Async A).

Arguments Return {A} a.
Arguments Read {A} k.
Arguments Update {A} f k.
Arguments Await {A} c k.

Fixpoint bind {A B : Type} (p : Async A) (f : A -> Async B) : Async B :=
  match p with
  | Return a => f a
  | Read k => Read (fun s => bind (k s) f)
  | Update g k => Update g (bind k f)
  | Await c k => Await c (fun r => bind (k r) f)
  end.

(** Where a call stands when control returns to the event loop. *)
Inductive Paused (A : Type) : Type :=
| Finished (a : A)
| Failed (error : string)
| Suspended (c : Command) (k : Response c -> Async A).

Arguments Finished {A} a.
Arguments Failed {A} error.
Arguments Suspended {A} c k.

(** One synchronous run: up to the next [await] or to the end. *)
Fixpoint run_sync {A : Type} (p : Async A) (s : St) : St * Paused A :=
  match p with
  | Return a => (s, Finished a)
  | Read k => run_sync (k s) s
  | Update f k => run_sync k (f s)
  | Await c k => (s, Suspended c k)
  end.

(** The awaited promise settles: the continuation runs on a resolved value;
    a rejection is thrown at the [await], and none of the functions here
    catches it. *)
Definition resume {A : Type} {c : Command} (k : Response c -> Async A)
    (r : Settled (Response c)) (s : St) : St * Paused A :=
  match r with
  | Resolved v => run_sync (k v) s
  | Rejected e => (s, Failed e)
  end.

(** The command a paused call waits for. *)
Definition awaited {A : Type} (p : Paused A) : option Command :=
  match p with
  | Suspended c _ => Some c
  | _ => None
  end.

(** A back end answers every command, changing its own state. *)
Class Backend (B : Type) : Type :=
  handle : forall c : Command, B -> B * Settled (Response c).

(** A call run to its end against a back end with no other call in between;
    [log] collects the commands in the order they were invoked. *)
Fixpoint exec {A B : Type} `{Backend B} (p : Async A) (s : St) (b : B)
    (log : list Command) : St * B * list Command * Settled A :=
  match p with
  | Return a => (s, b, log, Resolved a)
  | Read k => exec (k s) s b log
  | Update f k => exec k (f s) b log
  | Await c k =>
      match handle c b with
      | (b', Resolved v) => exec (k v) s b' (log ++ [c])
      | (b', Rejected e) => (s, b', log ++ [c], Rejected e)
      end
  end.

(** The commands a run of [exec] invoked, the store it leaves, and how the
    call settled. *)
Definition invoked {A B : Type}
    (r : St * B * list Command * Settled A) : list Command :=
  snd (fst r).

Definition final_store {A B : Type}
    (r : St * B * list Command * Settled A) : St :=
  fst (fst (fst r)).

Definition outcome {A B : Type}
    (r : St * B * list Command * Settled A) : Settled A :=
  snd r.

End AsyncMonad.

Arguments Async St A : clear implicits.
Arguments Paused St A : clear implicits.
Arguments Return {St A} a.
Arguments Read {St A} k.
Arguments Update {St A} f k.
Arguments Await {St A} c k.
Arguments Finished {St A} a.
Arguments Failed {St A} error.
Arguments Suspended {St A} c k.

#[export] Instance Async_ret {St : Type} : MRet (Async St) := @Return St.
#[export] Instance Async_bind {St : Type} : MBind (Async St) :=
  fun A B f p => bind p f.

(** Signal accessors: [sig()] and [setSig(v)]. *)
Definition get {St A : Type} (proj : St -> A) : Async St A :=
  Read (fun s => Return (proj s)).
Definition set {St : Type} (f : St -> St) : Async St unit :=
  Update f (Return tt).

(** [invoke(cmd)] awaited: the resolved value is handed on unchanged. *)
Definition invoke {St : Type} (c : Command) : Async St (Response c) :=
  Await c Return.

(** ** ui/src/lib/tauri.ts: the wrappers *)

Section Wrappers.
Context {St : Type}.

Definition startRecording : Async St unit := invoke start_recording.
Definition stopRecording : Async St string := invoke stop_recording.
Definition getRecordingStatus : Async St RecordingState :=
  invoke get_recording_status.
Definition toggleReplayBuffer : Async St bool := invoke toggle_replay_buffer.
Definition saveReplayClip (seconds : option Z) : Async St string :=
  invoke (save_replay_clip seconds).
Definition getReplayStatus : Async St bool := invoke get_replay_status.
Definition deleteRecording (id : string) : Async St unit :=
  invoke (delete_recording id).

End Wrappers.

(** ** ui/src/stores/recording.ts *)

Module RecordingStore.

(** The three signals of [useRecording], and the events whose listener the
    store has registered. *)
Record Store : Set := mkStore {
  state : RecordingState;
  timer : Z;
  replayActive : bool;
  listening : list string
}.

Definition setState (v : RecordingState) (st : Store) : Store :=
  mkStore v (timer st) (replayActive st) (listening st).
Definition setTimer (v : Z) (st : Store) : Store :=
  mkStore (state st) v (replayActive st) (listening st).
Definition setReplayActive (v : bool) (st : Store) : Store :=
  mkStore (state st) (timer st) v (listening st).
Definition addListener (event : string) (st : Store) : Store :=
  mkStore (state st) (timer st) (replayActive st) (listening st ++ [event]).

(** The values [createSignal] is called with. *)
Definition useRecording : Store :=
  mkStore (mkRecordingState Idle 0 None) 0 false [].

(** [onRecordingStateChanged], [onRecordingTimer], [onReplayStateChanged]:
    [listen(event, handler)] awaited; the handler is registered from then
    on. *)
Definition subscribe (event : string) : Async Store unit :=
  _ ← invoke (listen event); set (addListener event).

(** The body of [onMount]. The [onCleanup] callback, which only calls the
    three unlisten functions, is left out. *)
Definition onMount : Async Store unit :=
  status ← getRecordingStatus;
  _ ← set (setState status);
  replay ← getReplayStatus;
  _ ← set (setReplayActive replay);
  _ ← subscribe "recording-state-changed";
  _ ← subscribe "recording-timer";
  subscribe "replay-state-changed".

(** The three handlers passed to [listen]: [(s) => setState(s)],
    [(secs) => setTimer(secs)], [(active) => setReplayActive(active)]. *)
Definition handler (n : Notification) (st : Store) : Store :=
  match n with
  | recording_state_changed s => setState s st
  | recording_timer secs => setTimer secs st
  | replay_state_changed active => setReplayActive active st
  end.

(** An emitted event reaches the store when its listener is registered. *)
Definition deliver (n : Notification) (st : Store) : Store :=
  if bool_decide (event_name n ∈ listening st) then handler n st else st.

Definition toggleRecord : Async Store unit :=
  s ← get state;
  if Status_eqb (status s) Recording then
    _ ← stopRecording; mret tt
  else
    s' ← get state;
    if Status_eqb (status s') Idle then startRecording else mret tt.

Definition toggleReplay : Async Store unit :=
  active ← toggleReplayBuffer;
  set (setReplayActive active).

Definition saveReplay (seconds : option Z) : Async Store string :=
  saveReplayClip seconds.

(** A sequence of emitted events, in order. *)
Definition delivers (ns : list Notification) (st : Store) : Store :=
  foldl (fun acc n => deliver n acc) st ns.


(** The payload of the most recent "recording-timer" event of a sequence. *)
Definition timer_payload (n : Notification) : option Z :=
  match n with
  | recording_timer secs => Some secs
  | _ => None
  end.

Definition latest_timer (ns : list Notification) : option Z :=
  last (omap timer_payload ns).


End RecordingStore.

(** ** ui/src/pages/Recorder.tsx *)

Module RecorderPage.
Import RecordingStore.

(** The decimal digits of a whole number, with a minus sign below zero:
    what [Number.prototype.toString] writes for a whole number of a size
    below 2^53. *)
Definition toString (n : Z) : string := NilZero.string_of_int (Z.to_int n).

(** [String.prototype.padStart]: the fill string is repeated, and cut, to
    reach the target length; a string already that long is returned as it
    is. *)
Fixpoint fill_to (fill cur : string) (n : nat) : string :=
  match n with
  | O => EmptyString
  | S n' =>
      match cur with
      | String c rest => String c (fill_to fill rest n')
      | EmptyString =>
          match fill with
          | String c rest => String c (fill_to fill rest n')
          | EmptyString => EmptyString
          end
      end
  end.

Definition padStart (targetLength : nat) (padString : string) (s : string)
    : string :=
  (fill_to padString padString (targetLength - String.length s) ++ s)%string.

Definition pad (n : Z) : string := padStart 2 "0" (toString n).

(** A JS [number] is an IEEE 754 double. The seconds the page formats are
    whole numbers, kept here as integers: a whole number is a double when 53
    bits hold its significant digits (and it is below 2^1024). *)
Definition is_double (n : Z) : bool :=
  let a := Z.abs n in
  (a <? 2 ^ 53)
  || ((a <? 2 ^ 1024) && (a mod 2 ^ (Z.log2 a - 52) =? 0)).

(** [a / b] on doubles, for whole numbers [a] and [b > 0] that are doubles:
    the quotient rounded to 53 significant bits, to the nearest value and,
    of two equally near, to the one with an even last bit. The result is
    kept as a whole mantissa [m] and a binary exponent [e] and stands for
    [m * 2 ^ e]; [e] is chosen so that the quotient, counted in units of
    [2 ^ e], lies between 2^52 and 2^53. (Quotients too small or too large
    for a normal double do not arise from the divisors used here.) *)
Definition double_div (a b : Z) : Z * Z :=
  let x := Z.abs a in
  if x =? 0 then (0, 0)
  else
    let e0 := Z.log2 x - Z.log2 b - 52 in
    let num e := x * 2 ^ Z.max 0 (- e) in
    let den e := b * 2 ^ Z.max 0 e in
    let e := if num e0 <? 2 ^ 52 * den e0 then e0 - 1 else e0 in
    let q := num e / den e in
    let r := num e mod den e in
    let m :=
      if 2 * r <? den e then q
      else if den e <? 2 * r then q + 1
      else if Z.even q then q else q + 1 in
    (Z.sgn a * m, e).

(** [Math.floor] of a value [m * 2 ^ e]. *)
Definition Math_floor (v : Z * Z) : Z :=
  let (m, e) := v in
  if 0 <=? e then m * 2 ^ e else m / 2 ^ (- e).

(** [formatTime]. JS [%] is exact on doubles and takes the sign of the
    dividend, as [Z.rem] does. [pad] writes all the digits of a whole
    number, which is what [toString] does below 2^53; from there on
    [toString] writes the shortest digits that identify the double, which is
    outside this model: for such an hours field, and for an argument that is
    not a double, the result is [None]. *)
Definition formatTime (seconds : Z) : option string :=
  if is_double seconds then
    let h := Math_floor (double_div seconds 3600) in
    let m := Math_floor (double_div (Z.rem seconds 3600) 60) in
    let s := Z.rem seconds 60 in
    if 0 <? h then
      if h <? 2 ^ 53
      then Some (pad h ++ ":" ++ pad m ++ ":" ++ pad s)%string
      else None
    else Some (pad m ++ ":" ++ pad s)%string
  else None.

(** The rendering in the specification's words, to compare [formatTime]
    with: h = floor(n / 3600), m = floor((n mod 3600) / 60) and s = n mod 60
    as exact whole numbers, each padded to two digits. *)
Definition formatTime_spec (seconds : Z) : string :=
  let h := seconds / 3600 in
  let m := Z.rem seconds 3600 / 60 in
  let s := Z.rem seconds 60 in
  if 0 <? h then (pad h ++ ":" ++ pad m ++ ":" ++ pad s)%string
  else (pad m ++ ":" ++ pad s)%string.

Definition isRecording (st : Store) : bool :=
  Status_eqb (status (state st)) Recording.
Definition isIdle (st : Store) : bool :=
  Status_eqb (status (state st)) Idle.
Definition isBusy (st : Store) : bool :=
  Status_eqb (status (state st)) Starting
  || Status_eqb (status (state st)) Stopping.

(** The three buttons of the page. *)
Inductive Control : Set := RecordButton | ReplayToggle | SaveButton.

(** The [disabled] attribute of each button. *)
Definition disabled (b : Control) (st : Store) : bool :=
  match b with
  | RecordButton => isBusy st
  | ReplayToggle => false
  | SaveButton => negb (replayActive st)
  end.

(** The [onClick] handler of each button. *)
Definition onClick (b : Control) : Async Store unit :=
  match b with
  | RecordButton => toggleRecord
  | ReplayToggle => toggleReplay
  | SaveButton => _ ← saveReplay (Some 30); mret tt
  end.

(** A click: a disabled button dispatches nothing. *)
Definition click (b : Control) (st : Store) : Store * Paused Store unit :=
  if disabled b st then (st, Finished tt) else run_sync (onClick b) st.



(** Reading a rendered time back: the fields between the colons, the
    number each field writes, and the seconds they stand for. *)
Fixpoint split_colon (s : string) : list string :=
  match s with
  | EmptyString => [EmptyString]
  | String c rest =>
      if Ascii.eqb c ":" then EmptyString :: split_colon rest
      else
        match split_colon rest with
        | f :: fs => String c f :: fs
        | [] => [String c EmptyString]
        end
  end.

Fixpoint colon_free (s : string) : bool :=
  match s with
  | EmptyString => true
  | String c rest => negb (Ascii.eqb c ":") && colon_free rest
  end.

Definition readField (f : string) : option Z :=
  Z.of_int <$> NilZero.int_of_string f.

Definition recombine (rendered : string) : option Z :=
  match split_colon rendered with
  | [hh; mm; ss] =>
      h ← readField hh; m ← readField mm; s ← readField ss;
      Some (h * 3600 + m * 60 + s)
  | [mm; ss] =>
      m ← readField mm; s ← readField ss; Some (m * 60 + s)
  | _ => None
  end.

End RecorderPage.

(** ** ui/src/pages/Library.tsx *)

Module LibraryPage.

(** [interface Recording] of lib/tauri.ts. *)
Record Recording : Set := mkRecording {
  id : string;
  title : string;
  file_path : string;
  file_size : Z;
  duration : Z;
  resolution : string;
  fps : Z;
  codec : string;
  container : string;
  source_type : string;
  game_name : option string;
  created_at : string;
  thumbnail_path : option string
}.

(** The two signals of the page. *)
Record Store : Set := mkStore {
  recordings : list Recording;
  query : string
}.

Definition setRecordings (f : list Recording -> list Recording) (st : Store)
    : Store :=
  mkStore (f (recordings st)) (query st).

(** [await deleteRecording(id);
     setRecordings((prev) => prev.filter((r) => r.id !== id))]. *)
Definition handleDelete (i : string) : Async Store unit :=
  _ ← deleteRecording i;
  set (setRecordings (fun prev => filter (fun r => id r ≠ i) prev)).

End LibraryPage.

(** ** The core's replay ring buffer (spec section 4.5) *)

Module ReplayRingBuffer.
Local Open Scope N_scope.

(** Modelled from the spec: the ReplaySegment of section 3; the core crate
    that declares it is not part of the front end. Times are counted in one
    fixed unit; a segment spans a non-empty stretch of the stream, so its
    duration is a positive number. *)
Record ReplaySegment : Set := mkReplaySegment {
  sequence : N;
  start_offset : N;
  duration : positive;
  location : string;
  created : N
}.

(** Modelled from the spec: the ReplayBuffer of section 3, an ordered
    sequence of segments (oldest first), a fixed capacity and a running
    total duration. *)
Record ReplayBuffer : Set := mkReplayBuffer {
  segments : list ReplaySegment;
  capacity : N;
  total_duration : N
}.

Definition new (cap : N) : ReplayBuffer := mkReplayBuffer [] cap 0.

(** The cumulative duration of a run of segments. *)
Definition cumulative (l : list ReplaySegment) : N :=
  foldr (fun s acc => Npos (duration s) + acc) 0 l.

(** The running total is the duration of what is retained. *)
Definition consistent (b : ReplayBuffer) : Prop :=
  total_duration b = cumulative (segments b).

(** Modelled from the spec: [evict_to_capacity] of section 4.5, "evicts from
    the front (oldest) while total duration exceeds capacity". *)
Fixpoint evict (segs : list ReplaySegment) (total cap : N)
    : list ReplaySegment * N :=
  match segs with
  | [] => ([], total)
  | oldest :: rest =>
      if cap <? total then evict rest (total - Npos (duration oldest)) cap
      else (segs, total)
  end.

Definition evict_to_capacity (b : ReplayBuffer) : ReplayBuffer :=
  let (segs, total) := evict (segments b) (total_duration b) (capacity b) in
  mkReplayBuffer segs (capacity b) total.

(** Modelled from the spec: [append] of section 4.5, "adds a segment, then
    evicts from the front". *)
Definition append (seg : ReplaySegment) (b : ReplayBuffer) : ReplayBuffer :=
  evict_to_capacity
    (mkReplayBuffer (segments b ++ [seg]) (capacity b)
       (total_duration b + Npos (duration seg))).

(** A sequence of appends, in order. *)
Definition appends (segs : list ReplaySegment) (b : ReplayBuffer)
    : ReplayBuffer :=
  foldl (fun acc seg => append seg acc) b segs.

(** Walking back from the newest segment until the collected duration
    reaches [need]. *)
Fixpoint collect (newest_first : list ReplaySegment) (need : N)
    : list ReplaySegment :=
  match newest_first with
  | [] => []
  | s :: older =>
      if need =? 0 then [] else s :: collect older (need - Npos (duration s))
  end.

(** Modelled from the spec: [snapshot_suffix] of section 4.5, "the minimal
    trailing ordered subsequence whose cumulative duration is >= seconds, or
    the entire buffer if its total duration is less than requested". *)
Definition snapshot_suffix (seconds : N) (b : ReplayBuffer)
    : list ReplaySegment :=
  if total_duration b <? seconds then segments b
  else reverse (collect (reverse (segments b)) seconds).

(** The [i]-th segment of a stream cut into pieces of duration [len]. *)
Definition nth_segment (len : positive) (i : nat) : ReplaySegment :=
  mkReplaySegment (N.of_nat i) (N.of_nat i * Npos len) len "" 0.

(** The first [k] segments of such a stream. *)
Definition stream (len : positive) (k : nat) : list ReplaySegment :=
  nth_segment len <$> seq 0 k.

End ReplayRingBuffer.

(** ** The core's replay controller (spec section 4.6) *)

Module ReplayController.
Import ReplayRingBuffer.

(** Modelled from the spec: the state of the ReplayController of section
    4.6: whether replay mode is on, the ring buffer if one is present, and
    the configured capacity; the core crate is not part of the front end. *)
Record Controller : Set := mkController {
  active : bool;
  buffer : option ReplayBuffer;
  configured_capacity : N
}.

(** Modelled from the spec: [toggle() -> bool] of section 4.6. Activating
    creates the buffer if none is present; deactivating releases all
    buffered segments. The result is the new active state. *)
Definition toggle (ctl : Controller) : Controller * bool :=
  if active ctl then
    (mkController false
       ((fun b => mkReplayBuffer [] (capacity b) 0) <$> buffer ctl)
       (configured_capacity ctl), false)
  else
    (mkController true
       (Some (default (new (configured_capacity ctl)) (buffer ctl)))
       (configured_capacity ctl), true).

(** Modelled from the spec: the SegmentWriter of section 4.4 hands every
    completed segment to the ring buffer while replay mode is on. *)
Definition enqueue (seg : ReplaySegment) (ctl : Controller) : Controller :=
  if active ctl then
    mkController true (append seg <$> buffer ctl) (configured_capacity ctl)
  else ctl.

(** The default duration of a save request. *)
Definition default_seconds : Z := 30.

Section SaveClip.
(** Writing the referenced segments into a standalone file; the result is
    the file's path. *)
Context (concatenate : list ReplaySegment -> string).

(** Modelled from the spec: [saveClip(seconds)] of section 4.6: "fails with
    ReplayInactive if replay mode is off, and with EmptyBuffer if the buffer
    has zero retained duration"; otherwise the suffix of [snapshot_suffix]
    is concatenated and the file's path returned. *)
Definition saveClip (seconds : option Z) (ctl : Controller)
    : Settled string :=
  if negb (active ctl) then Rejected "ReplayInactive"
  else
    match buffer ctl with
    | None => Rejected "EmptyBuffer"
    | Some b =>
        if (total_duration b =? 0)%N then Rejected "EmptyBuffer"
        else
          Resolved
            (concatenate
               (snapshot_suffix (Z.to_N (default default_seconds seconds)) b))
    end.

(** The core as the front end's back end: the controller answers the three
    replay commands, and a back end [O] for the rest of the core answers
    the others. *)
#[export] Instance core_backend {O : Type} `{Backend O}
    : Backend (Controller * O) :=
  fun c core =>
    match c as c0 return (Controller * O) * Settled (Response c0) with
    | toggle_replay_buffer =>
        let (ctl, now) := toggle (fst core) in ((ctl, snd core), Resolved now)
    | save_replay_clip seconds => (core, saveClip seconds (fst core))
    | get_replay_status => (core, Resolved (active (fst core)))
    | c0 =>
        let (o, r) := handle c0 (snd core) in ((fst core, o), r)
    end.

End SaveClip.

End ReplayController.

(** ** The Recorder page running against a back end

    The page and the core run side by side: a click runs its handler up to
    the [await], and the answer reaches the suspended handler in a later
    turn of the event loop; other clicks may be handled in between. Here the
    request itself takes no time: the core serves it at the click. [Transit]
    below lets the request travel as well. *)

Module Session.
Import RecordingStore RecorderPage.

Section WithBackend.
Context {B : Type} `{Backend B}.

(** A command the core has answered, and the handler that waits for the
    answer. *)
Record Inflight : Type := mkInflight {
  request : Command;
  reply : Settled (Response request);
  continuation : Response request -> Async Store unit
}.

(** The error of a rejected answer. *)
Definition failure {A : Type} (r : Settled A) : option string :=
  match r with
  | Resolved _ => None
  | Rejected e => Some e
  end.

Record System : Type := mkSystem {
  ui : Store;
  core : B;
  inflight : list Inflight;
  answered : list (Command * option string)
}.

Inductive Event : Type :=
| Click (b : Control)
| Arrive (i : nat).

(** A handler stops at an [await]: the core serves the command. *)
Definition dispatch (sys : System) (st : Store) (p : Paused Store unit)
    : System :=
  match p with
  | Suspended c k =>
      let (b, r) := handle c (core sys) in
      mkSystem st b (inflight sys ++ [mkInflight c r k])
        (answered sys ++ [(c, failure r)])
  | _ => mkSystem st (core sys) (inflight sys) (answered sys)
  end.

Definition step (e : Event) (sys : System) : System :=
  match e with
  | Click b =>
      let (st, p) := click b (ui sys) in dispatch sys st p
  | Arrive i =>
      match inflight sys !! i with
      | None => sys
      | Some f =>
          let (st, p) := resume (continuation f) (reply f) (ui sys) in
          dispatch
            (mkSystem (ui sys) (core sys) (delete i (inflight sys))
               (answered sys))
            st p
      end
  end.

(** The events of a run, in order. *)
Definition run (es : list Event) (sys : System) : System :=
  foldl (fun acc e => step e acc) sys es.

End WithBackend.

Arguments System B : clear implicits.

(** A stand-in for the parts of the core that the replay controller does not
    cover: it turns every request down. *)
#[export] Instance no_backend : Backend unit :=
  fun c u => (u, Rejected "Unavailable").

(** A core that writes every clip to the same file, with replay mode off and
    a configured capacity of 30. *)
Definition clip_file (segs : list ReplayRingBuffer.ReplaySegment) : string :=
  "replay.mkv".

Definition replay_core : Backend (ReplayController.Controller * unit) :=
  ReplayController.core_backend clip_file.

Definition fresh : System (ReplayController.Controller * unit) :=
  mkSystem useRecording (ReplayController.mkController false None 30, tt)
    [] [].

(** Replay is switched on and the answer arrives. *)
Definition switched_on : list Event := [Click ReplayToggle; Arrive 0%nat].

(** Replay is switched on, the answer arrives, and the toggle is clicked
    again; the answer to the second click is still on its way. *)
Definition switching_off : list Event :=
  [Click ReplayToggle; Arrive 0%nat; Click ReplayToggle].

End Session.

(** ** The recording store: what the events carry, and a core for examples *)

Module StoreEvents.
Import RecordingStore.

(** The events [onMount] subscribes to, in the order of its [listen]
    calls. *)
Definition mount_events : list string :=
  ["recording-state-changed"; "recording-timer"; "replay-state-changed"].

(** The commands of a complete [onMount], in the order they are invoked. *)
Definition mount_commands : list Command :=
  [get_recording_status; get_replay_status;
   listen "recording-state-changed"; listen "recording-timer";
   listen "replay-state-changed"].

(** The payloads of the most recent "recording-state-changed" and
    "replay-state-changed" events of a sequence. *)
Definition state_payload (n : Notification) : option RecordingState :=
  match n with
  | recording_state_changed s => Some s
  | _ => None
  end.

Definition latest_state (ns : list Notification) : option RecordingState :=
  last (omap state_payload ns).

Definition replay_payload (n : Notification) : option bool :=
  match n with
  | replay_state_changed active => Some active
  | _ => None
  end.

Definition latest_replay (ns : list Notification) : option bool :=
  last (omap replay_payload ns).

(** A call of the store that runs while events are emitted. [gaps] lists,
    for each [await] the call reaches, the events emitted while it waits
    there; after them the awaited answer arrives, as the back end gives it,
    and the call runs on to its next [await]. The result is taken at the
    moment the call settles, or after the last gap: the store, the back
    end, where the call stands, and the commands invoked so far.

    The handler of a [listen] call is in place once the core has handled
    the call. The gap of such a call holds the events emitted before that;
    an event emitted while the answer is still on its way back counts with
    the next gap, or with the events after the call: the continuation
    writes no signal in between. *)
Section Racing.
Context {B : Type} `{Backend B}.

Fixpoint race (gaps : list (list Notification)) (st : Store) (b : B)
    (p : Paused Store unit) (log : list Command)
    : Store * B * Paused Store unit * list Command :=
  match gaps with
  | [] => (st, b, p, log)
  | gap :: rest =>
      match p with
      | Suspended c k =>
          let (b', r) := handle c b in
          let (st', p') := resume k r (delivers gap st) in
          race rest st' b' p' (log ++ [c])
      | _ => (st, b, p, log)
      end
  end.

(** The component is created and mounted: [onMount] runs on the store that
    [useRecording] has just created. *)
Definition mount (gaps : list (list Notification)) (b : B)
    : Store * B * Paused Store unit * list Command :=
  let (st, p) := run_sync onMount useRecording in race gaps st b p [].

End Racing.

(** A stand-in core that answers from a recorded status and replay flag,
    flips the flag on a toggle and accepts everything else. *)
Record Canned : Set := mkCanned {
  canned_status : RecordingState;
  canned_replay : bool
}.

#[export] Instance canned_backend : Backend Canned :=
  fun c b =>
    match c as c0 return Canned * Settled (Response c0) with
    | start_recording => (b, Resolved tt)
    | stop_recording => (b, Resolved "recording.mkv")
    | get_recording_status => (b, Resolved (canned_status b))
    | toggle_replay_buffer =>
        (mkCanned (canned_status b) (negb (canned_replay b)),
         Resolved (negb (canned_replay b)))
    | save_replay_clip _ => (b, Resolved "replay.mkv")
    | get_replay_status => (b, Resolved (canned_replay b))
    | delete_recording _ => (b, Resolved tt)
    | listen _ => (b, Resolved tt)
    end.

(** A store that has been mounted while a recording was running. *)
Definition mounted : Store :=
  mkStore (mkRecordingState Recording 7 None) 0 false mount_events.

End StoreEvents.

(** ** ui/src/pages/Library.tsx: the card's duration and size *)

Module LibraryFormat.
Import RecorderPage.

(** [formatDuration] on a whole number of seconds: the quotient is a
    division of doubles, [Math.floor] of the whole remainder is the
    remainder itself, and a template literal writes a number as [toString]
    does. As for [formatTime], a minutes value from 2^53 on and an argument
    that is not a double are outside this model: [None]. *)
Definition formatDuration (seconds : Z) : option string :=
  if is_double seconds then
    let m := Math_floor (double_div seconds 60) in
    let s := Z.rem seconds 60 in
    if Z.abs m <? 2 ^ 53
    then Some (toString m +:+ ":" +:+ padStart 2 "0" (toString s))
    else None
  else None.

(** The text with the minutes as the exact whole quotient, to compare
    [formatDuration] with. *)
Definition formatDuration_spec (seconds : Z) : string :=
  let m := seconds / 60 in
  let s := Z.rem seconds 60 in
  toString m +:+ ":" +:+ padStart 2 "0" (toString s).

Fixpoint zeros (n : nat) : string :=
  match n with
  | O => EmptyString
  | S n' => String "0" (zeros n')
  end.

(** Steps 11.c of [Number.prototype.toFixed]: the digits [m] of the scaled
    integer get their decimal point [f] places from the right, after zeros
    have been put in front of a string that is too short. *)
Definition place_point (m : string) (f : nat) : string :=
  if (f =? 0)%nat then m
  else
    let m' :=
      if (String.length m <=? f)%nat
      then zeros (f + 1 - String.length m) +:+ m
      else m in
    let k := String.length m' in
    String.substring 0 (k - f) m' +:+ "."
      +:+ String.substring (k - f) f m'.

(** [x.toFixed(f)] for a quotient x = num / den of integers with den > 0
    that the double holds exactly: below zero the sign is set aside; the
    integer n nearest to x * 10^f is taken, the larger one of two equally
    near; its digits get the decimal point. From 1e21 on [toFixed] writes
    the number as [toString] does, which is outside this model: [None]. *)
Definition toFixed (num den : Z) (f : nat) : option string :=
  let x := Z.abs num in
  if 10 ^ 21 * den <=? x then None
  else
    let n := (2 * (x * 10 ^ Z.of_nat f) + den) / (2 * den) in
    Some ((if num <? 0 then "-" else "") +:+ place_point (toString n) f).

(** [formatSize]: a byte count is a whole number, and its quotient by a
    power of two is a number that a double holds exactly. *)
Definition formatSize (bytes : Z) : option string :=
  if bytes <? 1024 * 1024 then
    (fun t => t +:+ " KB") <$> toFixed bytes 1024 0
  else if bytes <? 1024 * 1024 * 1024 then
    (fun t => t +:+ " MB") <$> toFixed bytes (1024 * 1024) 1
  else
    (fun t => t +:+ " GB") <$> toFixed bytes (1024 * 1024 * 1024) 2.

End LibraryFormat.

(** ** ui/src/lib/tauri.ts: the Export, Library and System groups *)

Module ExportPreset.
(** [interface ExportPreset]. *)
Record t : Set := mk {
  id : string;
  name : string;
  description : string;
  resolution : option (Z * Z);
  fps : option Z;
  codec : string;
  bitrate : option string;
  crop_aspect : option (Z * Z);
  loudnorm : bool;
  container : string
}.
End ExportPreset.

Module EncoderInfo.
(** [interface EncoderInfo]. *)
Record t : Set := mk {
  name : string;
  hw_accel : string;
  available : bool;
  device : option string
}.
End EncoderInfo.

Module AudioSource.
(** [interface AudioSource]. *)
Record t : Set := mk {
  id : string;
  name : string;
  source_type : string
}.
End AudioSource.

Module DiagnosticCheck.
(** [status: "Pass" | "Warn" | "Fail"]. *)
Inductive Status : Set := Pass | Warn | Fail.

(** [interface DiagnosticCheck]. *)
Record t : Set := mk {
  name : string;
  status : Status;
  detail : string;
  recommendation : option string
}.
End DiagnosticCheck.

Module DiagnosticReport.
(** [interface DiagnosticReport]. *)
Record t : Set := mk {
  checks : list DiagnosticCheck.t
}.
End DiagnosticReport.

Module Pages.
#[local] Set Warnings "-register-all".

(** A value of type [any]: what a JSON answer can hold. A finite double is
    a rational number; an object is a finite map from its keys. *)
Inductive JsValue : Type :=
| JUndefined
| JNull
| JBool (b : bool)
| JNum (q : Q)
| JStr (s : string)
| JArr (items : list JsValue)
| JObj (props : gmap string JsValue).

(** The argument of [startExport]; an optional field that is left out is
    [None]. *)
Record ExportParams : Set := mkExportParams {
  input : string;
  preset_id : string;
  trim_start : option Q;
  trim_end : option Q;
  output : option string
}.

(** The commands these pages pass to [invoke], with their arguments. *)
Inductive PageCommand : Type :=
| get_export_presets
| start_export (params : ExportParams)
| listen_export_completed
| get_recordings (limit offset : option Z)
| search_recordings (query : string)
| get_encoders
| get_audio_sources
| get_config
| update_config (config : JsValue)
| run_doctor.

(** The [Promise<T>] of each wrapper. *)
Definition Reply (c : PageCommand) : Type :=
  match c with
  | get_export_presets => list ExportPreset.t
  | start_export _ => string
  | listen_export_completed => unit
  | get_recordings _ _ => list LibraryPage.Recording
  | search_recordings _ => list LibraryPage.Recording
  | get_encoders => list EncoderInfo.t
  | get_audio_sources => list AudioSource.t
  | get_config => JsValue
  | update_config _ => unit
  | run_doctor => DiagnosticReport.t
  end.

Section Procedures.
Context {St : Type}.

(** The body of an [async] function of these pages. [Call c ok err] is
    [await invoke(c)]: [ok] goes on with the resolved value, [err] with the
    rejection, which is the [catch] block when the call stands in a [try]
    and [Throw] otherwise. [CallAll3] is [await Promise.all([...])] of three
    calls, [Timeout ms cb] is [setTimeout(cb, ms)]. *)
Inductive Proc (A : Type) : Type :=
| Done (a : A)
| Throw (e : string)
| Look (k : St -> Proc A)
| Write (f : St -> St) (k : Proc A)
| Call (c : PageCommand) (ok : Reply c -> Proc A) (err : string -> Proc A)
| CallAll3 (c1 c2 c3 : PageCommand)
    (ok : Reply c1 -> Reply c2 -> Reply c3 -> Proc A)
    (err : string -> Proc A)
| Timeout (ms : Z) (callback : St -> St) (k : Proc A).

Arguments Done {A} a.
Arguments Throw {A} e.
Arguments Look {A} k.
Arguments Write {A} f k.
Arguments Call {A} c ok err.
Arguments CallAll3 {A} c1 c2 c3 ok err.
Arguments Timeout {A} ms callback k.

Fixpoint pbind {A C : Type} (p : Proc A) (f : A -> Proc C) : Proc C :=
  match p with
  | Done a => f a
  | Throw e => Throw e
  | Look k => Look (fun s => pbind (k s) f)
  | Write g k => Write g (pbind k f)
  | Call c ok err =>
      Call c (fun r => pbind (ok r) f) (fun e => pbind (err e) f)
  | CallAll3 c1 c2 c3 ok err =>
      CallAll3 c1 c2 c3 (fun r1 r2 r3 => pbind (ok r1 r2 r3) f)
        (fun e => pbind (err e) f)
  | Timeout ms cb k => Timeout ms cb (pbind k f)
  end.

(** What a run leaves behind: the signals, the timers that were set (delay
    and callback, in the order they were set) and the commands invoked. *)
Record Trace : Type := mkTrace {
  signals : St;
  timers : list (Z * (St -> St));
  commands : list PageCommand
}.

(** Where a call stands at its first [await]. *)
Inductive Waiting (A : Type) : Type :=
| Completed (a : A)
| Thrown (e : string)
| AwaitsOne (c : PageCommand)
| AwaitsAll (c1 c2 c3 : PageCommand).

Arguments Completed {A} a.
Arguments Thrown {A} e.
Arguments AwaitsOne {A} c.
Arguments AwaitsAll {A} c1 c2 c3.

(** The synchronous part of a call: up to its first [await]. *)
Fixpoint first_await {A : Type} (p : Proc A) (s : St) : St * Waiting A :=
  match p with
  | Done a => (s, Completed a)
  | Throw e => (s, Thrown e)
  | Look k => first_await (k s) s
  | Write f k => first_await k (f s)
  | Call c _ _ => (s, AwaitsOne c)
  | CallAll3 c1 c2 c3 _ _ => (s, AwaitsAll c1 c2 c3)
  | Timeout _ _ k => first_await k s
  end.

(** A back end for these commands. *)
Class Server (B : Type) : Type :=
  serve : forall c : PageCommand, B -> B * Settled (Reply c).

(** A call run to its end against a back end with no other call in between.
    The three calls of [Promise.all] are all invoked, in order, before any
    answer is looked at; the first rejection among them is the rejection of
    the whole. *)
Fixpoint perform {A B : Type} `{Server B} (p : Proc A) (t : Trace) (b : B)
    : Trace * B * Settled A :=
  match p with
  | Done a => (t, b, Resolved a)
  | Throw e => (t, b, Rejected e)
  | Look k => perform (k (signals t)) t b
  | Write f k =>
      perform k (mkTrace (f (signals t)) (timers t) (commands t)) b
  | Call c ok err =>
      let t' := mkTrace (signals t) (timers t) (commands t ++ [c]) in
      match serve c b with
      | (b', Resolved v) => perform (ok v) t' b'
      | (b', Rejected e) => perform (err e) t' b'
      end
  | CallAll3 c1 c2 c3 ok err =>
      let t' :=
        mkTrace (signals t) (timers t) (commands t ++ [c1; c2; c3]) in
      let (b1, r1) := serve c1 b in
      let (b2, r2) := serve c2 b1 in
      let (b3, r3) := serve c3 b2 in
      match r1, r2, r3 with
      | Resolved v1, Resolved v2, Resolved v3 => perform (ok v1 v2 v3) t' b3
      | Rejected e, _, _ => perform (err e) t' b3
      | _, Rejected e, _ => perform (err e) t' b3
      | _, _, Rejected e => perform (err e) t' b3
      end
  | Timeout ms cb k =>
      perform k (mkTrace (signals t) (timers t ++ [(ms, cb)]) (commands t)) b
  end.

(** A run that starts with nothing set and nothing invoked. *)
Definition start (s : St) : Trace := mkTrace s [] [].

End Procedures.

Arguments Proc St A : clear implicits.
Arguments Trace St : clear implicits.
Arguments Waiting A : clear implicits.
Arguments Done {St A} a.
Arguments Throw {St A} e.
Arguments Look {St A} k.
Arguments Write {St A} f k.
Arguments Call {St A} c ok err.
Arguments CallAll3 {St A} c1 c2 c3 ok err.
Arguments Timeout {St A} ms callback k.
Arguments Completed {A} a.
Arguments Thrown {A} e.
Arguments AwaitsOne {A} c.
Arguments AwaitsAll {A} c1 c2 c3.

#[export] Instance Proc_ret {St : Type} : MRet (Proc St) := @Done St.
#[export] Instance Proc_bind {St : Type} : MBind (Proc St) :=
  fun A C f p => pbind p f.

(** [await invoke(c)] outside any [try]. *)
Definition request {St : Type} (c : PageCommand) : Proc St (Reply c) :=
  Call c Done Throw.

(** [try { await invoke(c) } catch (e) { handler }]: the resolved value is not
    used. *)
Definition try_request {St : Type} (c : PageCommand)
    (handler : string -> Proc St unit) : Proc St unit :=
  Call c (fun _ => Done tt) handler.

Definition look {St A : Type} (proj : St -> A) : Proc St A :=
  Look (fun s => Done (proj s)).
Definition write {St : Type} (f : St -> St) : Proc St unit :=
  Write f (Done tt).
Definition setTimeout {St : Type} (callback : St -> St) (ms : Z)
    : Proc St unit :=
  Timeout ms callback (Done tt).

End Pages.

(** ** ui/src/pages/Export.tsx *)

Module ExportPage.
Import Pages.

(** The signals of the page, and whether the "export-completed" listener is
    registered. *)
Record Store : Set := mkStore {
  presets : list ExportPreset.t;
  selectedPreset : string;
  inputFile : string;
  trimStart : option Q;
  trimEnd : option Q;
  exporting : bool;
  exportResult : option string;
  listening : bool
}.

Definition setPresets (v : list ExportPreset.t) (st : Store) : Store :=
  mkStore v (selectedPreset st) (inputFile st) (trimStart st) (trimEnd st)
    (exporting st) (exportResult st) (listening st).
Definition setSelectedPreset (v : string) (st : Store) : Store :=
  mkStore (presets st) v (inputFile st) (trimStart st) (trimEnd st)
    (exporting st) (exportResult st) (listening st).
Definition setInputFile (v : string) (st : Store) : Store :=
  mkStore (presets st) (selectedPreset st) v (trimStart st) (trimEnd st)
    (exporting st) (exportResult st) (listening st).
Definition setTrimStart (v : option Q) (st : Store) : Store :=
  mkStore (presets st) (selectedPreset st) (inputFile st) v (trimEnd st)
    (exporting st) (exportResult st) (listening st).
Definition setTrimEnd (v : option Q) (st : Store) : Store :=
  mkStore (presets st) (selectedPreset st) (inputFile st) (trimStart st) v
    (exporting st) (exportResult st) (listening st).
Definition setExporting (v : bool) (st : Store) : Store :=
  mkStore (presets st) (selectedPreset st) (inputFile st) (trimStart st)
    (trimEnd st) v (exportResult st) (listening st).
Definition setExportResult (v : option string) (st : Store) : Store :=
  mkStore (presets st) (selectedPreset st) (inputFile st) (trimStart st)
    (trimEnd st) (exporting st) v (listening st).
Definition setListening (v : bool) (st : Store) : Store :=
  mkStore (presets st) (selectedPreset st) (inputFile st) (trimStart st)
    (trimEnd st) (exporting st) (exportResult st) v.

(** The values [createSignal] is called with. *)
Definition initial : Store :=
  mkStore [] "" "" None None false None false.

(** [!s] for a string: the empty string is the only falsy one. *)
Definition is_empty (s : string) : bool :=
  match s with
  | EmptyString => true
  | String _ _ => false
  end.

(** The handler given to [onExportCompleted]. *)
Definition completed (path : string) (st : Store) : Store :=
  setExportResult (Some path) (setExporting false st).

(** The "export-completed" event reaches the page when its listener is
    registered. *)
Definition deliver_completed (path : string) (st : Store) : Store :=
  if listening st then completed path st else st.

(** The body of [onMount]. *)
Definition onMount : Proc Store unit :=
  p ← request get_export_presets;
  _ ← write (setPresets p);
  _ ← match p with
      | first :: _ => write (setSelectedPreset (ExportPreset.id first))
      | [] => mret tt
      end;
  _ ← request listen_export_completed;
  write (setListening true).

(** [handleExport]; the [console.error] of the [catch] block only writes to
    the console and is left out. *)
Definition handleExport : Proc Store unit :=
  i ← look inputFile;
  if is_empty i then mret tt
  else
    p ← look selectedPreset;
    if is_empty p then mret tt
    else
      _ ← write (setExporting true);
      _ ← write (setExportResult None);
      i' ← look inputFile;
      p' ← look selectedPreset;
      ts ← look trimStart;
      te ← look trimEnd;
      try_request (start_export (mkExportParams i' p' ts te None))
        (fun _ => write (setExporting false)).

(** The [disabled] attribute of the Export button. *)
Definition export_disabled (st : Store) : bool :=
  exporting st || is_empty (inputFile st).

(** A click on the Export button, up to the first [await]. *)
Definition click_export (st : Store) : Store * Waiting unit :=
  if export_disabled st then (st, Completed tt)
  else first_await handleExport st.

End ExportPage.

(** ** ui/src/pages/Library.tsx: loading and searching *)

Module LibrarySearch.
Import Pages LibraryPage.

(** The body of [onMount]: [getRecordings()] with both arguments left
    out. *)
Definition onMount : Proc Store unit :=
  recs ← request (get_recordings None None);
  write (setRecordings (fun _ => recs)).

Section WithTrim.
(** [String.prototype.trim]. *)
Context (trim : string -> string).

Definition handleSearch : Proc Store unit :=
  q ← look (fun st => trim (query st));
  if ExportPage.is_empty q then
    recs ← request (get_recordings None None);
    write (setRecordings (fun _ => recs))
  else
    results ← request (search_recordings q);
    write (setRecordings (fun _ => results)).

End WithTrim.

End LibrarySearch.

(** ** ui/src/pages/Settings.tsx *)

Module SettingsPage.
Import Pages.

Record Store : Type := mkStore {
  config : JsValue;
  encoders : list EncoderInfo.t;
  audioSources : list AudioSource.t;
  diagnostics : option DiagnosticReport.t;
  saved : bool
}.

Definition setConfig (v : JsValue) (st : Store) : Store :=
  mkStore v (encoders st) (audioSources st) (diagnostics st) (saved st).
Definition setEncoders (v : list EncoderInfo.t) (st : Store) : Store :=
  mkStore (config st) v (audioSources st) (diagnostics st) (saved st).
Definition setAudioSources (v : list AudioSource.t) (st : Store) : Store :=
  mkStore (config st) (encoders st) v (diagnostics st) (saved st).
Definition setDiagnostics (v : option DiagnosticReport.t) (st : Store)
    : Store :=
  mkStore (config st) (encoders st) (audioSources st) v (saved st).
Definition setSaved (v : bool) (st : Store) : Store :=
  mkStore (config st) (encoders st) (audioSources st) (diagnostics st) v.

(** The values [createSignal] is called with. *)
Definition initial : Store := mkStore JNull [] [] None false.

(** [!!v]: what JS takes for true. *)
Definition truthy (v : JsValue) : bool :=
  match v with
  | JUndefined | JNull => false
  | JBool b => b
  | JNum q => negb (Qeq_bool q 0)
  | JStr s => negb (ExportPage.is_empty s)
  | JArr _ | JObj _ => true
  end.

(** The body of [onMount]: the three queries under one [Promise.all]. *)
Definition onMount : Proc Store unit :=
  CallAll3 get_config get_encoders get_audio_sources
    (fun c e a =>
       _ ← write (setConfig c);
       _ ← write (setEncoders e);
       write (setAudioSources a))
    Throw.

Definition handleSave : Proc Store unit :=
  c ← look config;
  if negb (truthy c) then mret tt
  else
    c' ← look config;
    _ ← request (update_config c');
    _ ← write (setSaved true);
    setTimeout (setSaved false) 2000.

Definition handleDoctor : Proc Store unit :=
  report ← request run_doctor;
  write (setDiagnostics (Some report)).

(** [{ ...v }]: the own enumerable properties of [v]: those of an object,
    the items of an array and the characters of a string under their
    indices, none for anything else. *)
Definition indexed (items : list JsValue) : gmap string JsValue :=
  list_to_map
    (imap (fun i x => (RecorderPage.toString (Z.of_nat i), x)) items).

(** A JS string is a sequence of UTF-16 code units, and spreading it gives
    one property for each. The strings here hold the text in UTF-8: a
    character written in one, two or three bytes is one code unit; a
    character written in four bytes is two, a surrogate pair, and each of
    the two is written here in the three bytes of its own code. A byte that
    does not start a well-formed character stands alone. *)
Definition is_continuation (c : ascii) : bool :=
  ((128 <=? N_of_ascii c) && (N_of_ascii c <? 192))%N.

Definition code_unit (u : N) : string :=
  String (ascii_of_N (224 + u / 4096))
    (String (ascii_of_N (128 + (u / 64) mod 64))
       (String (ascii_of_N (128 + u mod 64)) EmptyString)).

Definition surrogates (c0 c1 c2 c3 : ascii) : list string :=
  let point :=
    ((N_of_ascii c0 mod 8) * 262144 + (N_of_ascii c1 mod 64) * 4096
     + (N_of_ascii c2 mod 64) * 64 + N_of_ascii c3 mod 64)%N in
  let v := (point - 65536)%N in
  [code_unit (55296 + v / 1024)%N; code_unit (56320 + v mod 1024)%N].

Fixpoint code_units (s : string) : list string :=
  match s with
  | EmptyString => []
  | String c0 rest =>
      let alone := String c0 EmptyString :: code_units rest in
      let lead := N_of_ascii c0 in
      if (lead <? 192)%N then alone
      else
        match rest with
        | String c1 rest1 =>
            if negb (is_continuation c1) then alone
            else if (lead <? 224)%N then
              String c0 (String c1 EmptyString) :: code_units rest1
            else
              match rest1 with
              | String c2 rest2 =>
                  if negb (is_continuation c2) then alone
                  else if (lead <? 240)%N then
                    String c0 (String c1 (String c2 EmptyString))
                      :: code_units rest2
                  else
                    match rest2 with
                    | String c3 rest3 =>
                        if is_continuation c3 && (lead <? 248)%N then
                          surrogates c0 c1 c2 c3 ++ code_units rest3
                        else alone
                    | EmptyString => alone
                    end
              | EmptyString => alone
              end
        | EmptyString => alone
        end
  end.

Definition characters (s : string) : list JsValue :=
  JStr <$> code_units s.

Definition spread (v : JsValue) : gmap string JsValue :=
  match v with
  | JObj props => props
  | JArr items => indexed items
  | JStr s => indexed (characters s)
  | _ => ∅
  end.

(** [o.key] for an object [o]: [undefined] when the key is missing. *)
Definition property (key : string) (props : gmap string JsValue) : JsValue :=
  default JUndefined (props !! key).

(** The pattern of the five input handlers:
    [const c = { ...config() };
     c.section = { ...c.section, key: value };
     setConfig(c)]. *)
Definition edit (section key : string) (value : JsValue) (st : Store)
    : Store :=
  let c := spread (config st) in
  setConfig
    (JObj (<[section := JObj (<[key := value]>
                                (spread (property section c)))]> c))
    st.

(** The values of the [<option>]s of the two numeric selects; [parseInt] of
    each is the number it spells. *)
Inductive FpsOption : Set := Fps30 | Fps60 | Fps120.
Inductive DurationOption : Set := Secs30 | Secs60 | Secs120 | Secs300.

Definition parseInt_fps (o : FpsOption) : Z :=
  match o with Fps30 => 30 | Fps60 => 60 | Fps120 => 120 end.
Definition parseInt_duration (o : DurationOption) : Z :=
  match o with
  | Secs30 => 30 | Secs60 => 60 | Secs120 => 120 | Secs300 => 300
  end.

(** The five handlers. *)
Definition changeFps (o : FpsOption) : Store -> Store :=
  edit "recording" "fps" (JNum (inject_Z (parseInt_fps o))).
Definition changeAudioSource (value : string) : Store -> Store :=
  edit "recording" "audio_source" (JStr value).
Definition changeDuration (o : DurationOption) : Store -> Store :=
  edit "replay" "duration_secs" (JNum (inject_Z (parseInt_duration o))).
Definition inputToggleRecording (value : string) : Store -> Store :=
  edit "hotkeys" "toggle_recording" (JStr value).
Definition inputSaveReplay (value : string) : Store -> Store :=
  edit "hotkeys" "save_replay" (JStr value).

(** [v?.key] and [v ?? d], for a key that is no index and no built-in
    property. *)
Definition optional (key : string) (v : JsValue) : JsValue :=
  match v with
  | JObj props => property key props
  | _ => JUndefined
  end.

Definition nullish_or (v d : JsValue) : JsValue :=
  match v with
  | JUndefined | JNull => d
  | _ => v
  end.

(** What an input shows: [config()?.section?.key ?? fallback]. *)
Definition shown (section key : string) (fallback : JsValue) (st : Store)
    : JsValue :=
  nullish_or (optional key (optional section (config st))) fallback.

End SettingsPage.

(** ** A back end for the examples of these pages *)

Module PagesDouble.
Import Pages.

(** A stand-in back end: it answers the preset and config queries from what
    it holds, keeps the config it is sent, answers the lists with empty
    lists, and, when [failing], turns down an export and the audio source
    query. *)
Record Scripted : Type := mkScripted {
  scripted_presets : list ExportPreset.t;
  scripted_config : JsValue;
  failing : bool
}.

#[export] Instance scripted_server : Server Scripted :=
  fun c b =>
    match c as c0 return Scripted * Settled (Reply c0) with
    | get_export_presets => (b, Resolved (scripted_presets b))
    | start_export _ =>
        (b, if failing b then Rejected "ExportFailed"
            else Resolved "export.mp4")
    | listen_export_completed => (b, Resolved tt)
    | get_recordings _ _ => (b, Resolved [])
    | search_recordings _ => (b, Resolved [])
    | get_encoders => (b, Resolved [])
    | get_audio_sources =>
        (b, if failing b then Rejected "NoAudio" else Resolved [])
    | get_config => (b, Resolved (scripted_config b))
    | update_config c' =>
        (mkScripted (scripted_presets b) c' (failing b), Resolved tt)
    | run_doctor => (b, Resolved (DiagnosticReport.mk []))
    end.

(** The "YouTube" preset. *)
Definition youtube : ExportPreset.t :=
  ExportPreset.mk "youtube" "YouTube" "1080p for YouTube"
    (Some (1920, 1080)) (Some 60) "h264" (Some "12M") None true "mp4".

(** The Export page with a file entered and a preset chosen. *)
Definition ready : ExportPage.Store :=
  ExportPage.mkStore [youtube] "youtube" "clip.mkv" None None false None
    true.

End PagesDouble.

(** ** The recording state at run time

    The annotations of lib/tauri.ts are erased when the page runs: [invoke]
    and [listen] hand over the object the core sent, and neither the
    wrappers nor the store look at it before it is stored. The status of a
    state that arrives is therefore any string. *)

Module Untyped.

(** A recording state as it arrives. *)
Record RawState : Set := mkRawState {
  raw_status : string;
  raw_elapsed_secs : Z;
  raw_file_path : option string
}.


(** The value [createSignal] is called with. *)
Definition created : RawState := mkRawState "Idle" 0 None.



(** [setState(v)]: the signal holds [v] from then on. *)
Definition setState (v : RawState) (current : RawState) : RawState := v.




(** What the readers do with the status: the comparisons of [toggleRecord]
    and of the page's [isBusy]. *)
Definition toggleRecord (s : RawState) : option Command :=
  if String.eqb (raw_status s) "Recording" then Some stop_recording
  else if String.eqb (raw_status s) "Idle" then Some start_recording
  else None.

Definition isBusy (s : RawState) : bool :=
  String.eqb (raw_status s) "Starting"
  || String.eqb (raw_status s) "Stopping".

End Untyped.

(** ** The Recorder page and the core, with requests that take time

    A click runs its handler up to the [await] and sends the request; the
    core serves the requests that have reached it, in any order; the answer
    travels back and resumes the handler in a later turn of the event loop.
    Clicks may fall anywhere in between. *)

Module Transit.
Import RecordingStore RecorderPage Session.

Section WithBackend.
Context {B : Type} `{Backend B}.

(** A request on its way to the core, and the handler that waits for the
    answer. *)
Record Sent : Type := mkSent {
  sent_request : Command;
  sent_continuation : Response sent_request -> Async Store unit
}.

Record Wire : Type := mkWire {
  page : Store;
  backend : B;
  outgoing : list Sent;
  returning : list Inflight;
  served : list (Command * option string)
}.

Inductive Move : Type :=
| Press (b : Control)
| Serve (i : nat)
| Land (i : nat).

(** A handler stops at an [await]: the request leaves for the core. *)
Definition send (w : Wire) (st : Store) (p : Paused Store unit) : Wire :=
  match p with
  | Suspended c k =>
      mkWire st (backend w) (outgoing w ++ [mkSent c k]) (returning w)
        (served w)
  | _ => mkWire st (backend w) (outgoing w) (returning w) (served w)
  end.

Definition move (m : Move) (w : Wire) : Wire :=
  match m with
  | Press b =>
      let (st, p) := click b (page w) in send w st p
  | Serve i =>
      match outgoing w !! i with
      | None => w
      | Some s =>
          let (b, r) := handle (sent_request s) (backend w) in
          mkWire (page w) b (delete i (outgoing w))
            (returning w
               ++ [mkInflight (sent_request s) r (sent_continuation s)])
            (served w ++ [(sent_request s, failure r)])
      end
  | Land i =>
      match returning w !! i with
      | None => w
      | Some f =>
          let (st, p) := resume (continuation f) (reply f) (page w) in
          send
            (mkWire (page w) (backend w) (outgoing w)
               (delete i (returning w)) (served w))
            st p
      end
  end.

(** The moves of a run, in order. *)
Definition play (ms : list Move) (w : Wire) : Wire :=
  foldl (fun acc m => move m acc) w ms.

(** Whether a move serves a toggle request, and whether any move of a run
    does. *)
Definition serves_toggle (m : Move) (w : Wire) : bool :=
  match m with
  | Serve i =>
      match sent_request <$> outgoing w !! i with
      | Some toggle_replay_buffer => true
      | _ => false
      end
  | _ => false
  end.

Fixpoint toggle_served (ms : list Move) (w : Wire) : bool :=
  match ms with
  | [] => false
  | m :: rest => serves_toggle m w || toggle_served rest (move m w)
  end.

End WithBackend.

Arguments Wire B : clear implicits.

(** The page is opened against the core of [Session.fresh]; replay is
    switched on and the answer has come back. *)
Definition opened : Wire (ReplayController.Controller * unit) :=
  mkWire useRecording (ReplayController.mkController false None 30, tt)
    [] [] [].

Definition replay_on : list Move :=
  [Press ReplayToggle; Serve 0%nat; Land 0%nat].

(** Replay is switched on and the answer has come back; the toggle is
    pressed again and the core has served the request, switching replay
    off, but the answer has not come back yet. *)
Definition switched_off_unanswered : list Move :=
  replay_on ++ [Press ReplayToggle; Serve 0%nat].

(** With replay on, the toggle is pressed and Save right after it, while the
    toggle request is still on its way; the core serves the two requests in
    the order they were sent. *)
Definition toggle_then_save : list Move :=
  [Press ReplayToggle; Press SaveButton; Serve 0%nat; Serve 0%nat].

End Transit.

(** ** The core's recording state machine (spec section 4.2) *)

Module RecordingStateMachine.
Import ReplayRingBuffer.

(** Modelled from the spec: the RecordingSession of section 3 as the state
    machine of section 4.2 owns it: the current status, the elapsed-time
    counter, the ordered list of the segments produced since start (section
    4.4), the output file path, set once finalized, and the state-changed
    notifications emitted so far, each with the new status and, where
    applicable, the output path. *)
Record Machine : Set := mkMachine {
  machine_status : Status;
  elapsed : Z;
  produced : list ReplaySegment;
  output_path : option string;
  emitted : list (Status * option string)
}.

Section Operations.
(** Modelled from the spec: what [start] and [stop] call on. [initialize]
    is the outcome of the EncoderSelector and of the pipeline's
    initialization: [None] when both succeed, the failure reason otherwise
    (NoEncoderAvailable, EncoderInitFailed). [finalize] writes the
    concatenation of the given segments into the output file and gives the
    file's path, or fails (FinalizationFailed). *)
Context (initialize : option string).
Context (finalize : list ReplaySegment -> Settled string).

(** Modelled from the spec: [start()] of section 4.2: "valid only from
    Idle"; through Starting to Recording on success, with the counter at 0;
    back to Idle with the failure reason otherwise; Busy from Starting or
    Stopping and AlreadyRecording from Recording, with no state change.
    Every transition emits one notification. *)
Definition start (m : Machine) : Machine * Settled unit :=
  match machine_status m with
  | Idle =>
      match initialize with
      | None =>
          (mkMachine Recording 0 [] None
             (emitted m ++ [(Starting, None); (Recording, None)]),
           Resolved tt)
      | Some reason =>
          (mkMachine Idle 0 [] None
             (emitted m ++ [(Starting, None); (Idle, None)]),
           Rejected reason)
      end
  | Recording => (m, Rejected "AlreadyRecording")
  | Starting | Stopping => (m, Rejected "Busy")
  end.

(** Modelled from the spec: [stop()] of section 4.2: "valid only from
    Recording"; through Stopping, where the output file is finalized as the
    "concatenation of all segments produced since start", to Idle; "returns
    the finalized file path". A finalization failure still moves to Idle
    and is surfaced instead of a path. From Idle it fails with NotRecording
    and changes nothing; from Starting or Stopping, for which the section
    names no result of [stop], the model answers Busy, the result it names
    for a request during a transition. *)
Definition stop (m : Machine) : Machine * Settled string :=
  match machine_status m with
  | Recording =>
      match finalize (produced m) with
      | Resolved path =>
          (mkMachine Idle (elapsed m) [] (Some path)
             (emitted m ++ [(Stopping, None); (Idle, Some path)]),
           Resolved path)
      | Rejected reason =>
          (mkMachine Idle (elapsed m) [] None
             (emitted m ++ [(Stopping, None); (Idle, None)]),
           Rejected reason)
      end
  | Idle => (m, Rejected "NotRecording")
  | Starting | Stopping => (m, Rejected "Busy")
  end.

(** Modelled from the spec: the SegmentWriter of section 4.4 appends every
    completed segment to the list of the active session. *)
Definition record (seg : ReplaySegment) (m : Machine) : Machine :=
  match machine_status m with
  | Recording =>
      mkMachine Recording (elapsed m) (produced m ++ [seg]) (output_path m)
        (emitted m)
  | _ => m
  end.

(** Modelled from the spec: the segments completed during a session reach
    it one after the other, in order (section 4.4). *)
Definition records (segs : list ReplaySegment) (m : Machine) : Machine :=
  foldl (fun acc seg => record seg acc) m segs.

(** Modelled from the spec: the session as a status query reports it
    (section 3: current status, elapsed-time counter, output file path). *)
Definition report (m : Machine) : RecordingState :=
  mkRecordingState (machine_status m) (elapsed m) (output_path m).

(** Modelled from the spec: the state machine as a back end. It answers
    the three recording commands with the operations above, and a back end
    [O] answers the others. *)
#[export] Instance machine_backend {O : Type} `{Backend O}
    : Backend (Machine * O) :=
  fun c core =>
    match c as c0 return (Machine * O) * Settled (Response c0) with
    | start_recording =>
        let (m, r) := start (fst core) in ((m, snd core), r)
    | stop_recording =>
        let (m, r) := stop (fst core) in ((m, snd core), r)
    | get_recording_status => (core, Resolved (report (fst core)))
    | c0 =>
        let (o, r) := handle c0 (snd core) in ((fst core, o), r)
    end.

End Operations.

(** A session in which three segments of two seconds have been produced,
    and a writer that names the output file after their number. *)
Definition recording_three : Machine :=
  mkMachine Recording 6 (stream 2 3) None
    [(Starting, None); (Recording, None)].

Definition numbered_file (segs : list ReplaySegment) : Settled string :=
  Resolved ("recording-" +:+ RecorderPage.toString (Z.of_nat (length segs))
            +:+ ".mkv").

End RecordingStateMachine.

(** * Properties *)

(** ** Asynchronous functions *)

Module AsyncFacts.

(** Running to the end is running to the next [await], letting the back end
    answer, and going on from there. *)
Lemma exec_unfolds {St A B : Type} `{Backend B} (p : Async St A) (s : St)
    (b : B) (log : list Command) :
  exec p s b log =
    match run_sync p s with
    | (s', Finished a) => (s', b, log, Resolved a)
    | (s', Failed e) => (s', b, log, Rejected e)
    | (s', Suspended c k) =>
        match handle c b with
        | (b', Resolved v) => exec (k v) s' b' (log ++ [c])
        | (b', Rejected e) => (s', b', log ++ [c], Rejected e)
        end
    end.
Proof.
  revert s. induction p as [a|k IH|f k IH|c k IH]; intros s; cbn.
  - reflexivity.
  - apply IH.
  - apply IH.
  - reflexivity.
Qed.

End AsyncFacts.

(** ** The recording store *)

Module RecordingStoreFacts.
Import RecordingStore RecorderPage StoreEvents.

Section AnyBackend.
Context {B : Type} `{Backend B}.

Lemma toggleRecord_log (st : Store) (b : B) :
  invoked (exec toggleRecord st b []) =
  match status (state st) with
  | Recording => [stop_recording]
  | Idle => [start_recording]
  | Starting | Stopping => []
  end.
Proof.
  unfold toggleRecord, invoked. cbn.
  destruct (status (state st)) eqn:E; cbn; rewrite ?E; cbn.
  - destruct (handle start_recording b) as [b' [v|e]]; reflexivity.
  - reflexivity.
  - destruct (handle stop_recording b) as [b' [v|e]]; reflexivity.
  - reflexivity.
Qed.

(** C1. For every store and every back end, [toggleRecord] invokes exactly
    [stop_recording] when the status is Recording, exactly [start_recording]
    when it is Idle, and no command at all when it is Starting or Stopping;
    so a stop is invoked only from Recording and a start only from Idle. The
    same holds for the command the function suspends on at its [await]. *)
Theorem toggleRecord_respects_status (st : Store) (b : B) :
  invoked (exec toggleRecord st b []) =
    match status (state st) with
    | Recording => [stop_recording]
    | Idle => [start_recording]
    | Starting | Stopping => []
    end
  /\ (stop_recording ∈ invoked (exec toggleRecord st b [])
      <-> status (state st) = Recording)
  /\ (start_recording ∈ invoked (exec toggleRecord st b [])
      <-> status (state st) = Idle)
  /\ (status (state st) = Starting \/ status (state st) = Stopping ->
      invoked (exec toggleRecord st b []) = []
      /\ run_sync toggleRecord st = (st, Finished tt))
  /\ awaited (snd (run_sync toggleRecord st)) =
       match status (state st) with
       | Recording => Some stop_recording
       | Idle => Some start_recording
       | Starting | Stopping => None
       end.
Proof.
  rewrite toggleRecord_log.
  split; [reflexivity|].
  unfold toggleRecord. cbn.
  destruct (status (state st)) eqn:E; cbn; rewrite ?E; cbn;
    rewrite ?list_elem_of_singleton, ?elem_of_nil;
    intuition congruence.
Qed.

(** C5. [toggleReplay] invokes [toggle_replay_buffer] once and, when the
    call resolves with [v], leaves [replayActive] equal to [v] and every
    other signal as it was; when the call is rejected the store is not
    written. The continuation after the [await] writes the resolved value
    whatever the store has become in the meantime. *)
Theorem toggleReplay_reflects_backend (st : Store) (b : B) :
  exec toggleReplay st b [] =
    match handle toggle_replay_buffer b with
    | (b', Resolved v) =>
        (setReplayActive v st, b', [toggle_replay_buffer], Resolved tt)
    | (b', Rejected e) => (st, b', [toggle_replay_buffer], Rejected e)
    end
  /\ (forall (b' : B) (v : bool),
        handle toggle_replay_buffer b = (b', Resolved v) ->
        replayActive (final_store (exec toggleReplay st b [])) = v)
  /\ exists k : bool -> Async Store unit,
       run_sync toggleReplay st = (st, Suspended toggle_replay_buffer k)
       /\ forall (v : bool) (st2 : Store),
            resume (c := toggle_replay_buffer) k (Resolved v) st2 =
              (setReplayActive v st2, Finished tt)
            /\ replayActive (fst (resume (c := toggle_replay_buffer) k
                                    (Resolved v) st2)) = v.
Proof.
  unfold toggleReplay, final_store. cbn.
  split; [|split].
  - destruct (handle toggle_replay_buffer b) as [b' [v|e]]; reflexivity.
  - intros b' v Hb. rewrite Hb. reflexivity.
  - eexists. split; [reflexivity|]. intros v st2. split; reflexivity.
Qed.

(** The wrappers add nothing and take nothing away: each invokes its
    command once and settles as the back end's answer does. *)
Lemma wrappers_hand_on
    (st : Store) (b : B) (seconds : option Z) :
  (forall (b' : B) (path : string),
     handle stop_recording b = (b', Resolved path) ->
     exec stopRecording st b [] = (st, b', [stop_recording], Resolved path))
  /\ (forall (b' : B) (v : unit),
        handle start_recording b = (b', Resolved v) ->
        exec startRecording st b [] =
          (st, b', [start_recording], Resolved tt))
  /\ (forall (b' : B) (path : string),
        handle (save_replay_clip seconds) b = (b', Resolved path) ->
        exec (saveReplayClip seconds) st b [] =
          (st, b', [save_replay_clip seconds], Resolved path))
  /\ (forall (b' : B) (e : string),
        (handle stop_recording b = (b', Rejected e) ->
         outcome (exec (stopRecording (St := Store)) st b []) = Rejected e)
        /\ (handle start_recording b = (b', Rejected e) ->
            outcome (exec (startRecording (St := Store)) st b []) =
              Rejected e)
        /\ (handle (save_replay_clip seconds) b = (b', Rejected e) ->
            outcome (exec (saveReplayClip (St := Store) seconds) st b []) =
              Rejected e)).
Proof.
  unfold stopRecording, startRecording, saveReplayClip, invoke, outcome.
  cbn. split; [|split; [|split]].
  - intros b' path Hb. rewrite Hb. reflexivity.
  - intros b' [] Hb. rewrite Hb. reflexivity.
  - intros b' path Hb. rewrite Hb. reflexivity.
  - intros b' e. repeat split; intros Hb; rewrite Hb; reflexivity.
Qed.

End AnyBackend.

Lemma deliver_listening (n : Notification) (st : Store) :
  listening (deliver n st) = listening st.
Proof.
  unfold deliver. case_bool_decide; [|reflexivity].
  destruct n; reflexivity.
Qed.

Lemma deliver_timer (n : Notification) (st : Store) :
  "recording-timer" ∈ listening st ->
  timer (deliver n st) = default (timer st) (timer_payload n).
Proof.
  intros Hl. unfold deliver. destruct n; cbn.
  - case_bool_decide; reflexivity.
  - rewrite bool_decide_eq_true_2 by exact Hl. reflexivity.
  - case_bool_decide; reflexivity.
Qed.

Lemma latest_timer_cons (n : Notification) (ns : list Notification) (d : Z) :
  default d (latest_timer (n :: ns)) =
  default (default d (timer_payload n)) (latest_timer ns).
Proof.
  unfold latest_timer. cbn.
  destruct (timer_payload n) as [p|]; cbn; [|reflexivity].
  rewrite last_cons. destruct (last (omap timer_payload ns)); reflexivity.
Qed.

Lemma delivers_timer (ns : list Notification) (st : Store) :
  "recording-timer" ∈ listening st ->
  timer (delivers ns st) = default (timer st) (latest_timer ns).
Proof.
  revert st. induction ns as [|n ns IH]; intros st Hl; [reflexivity|].
  rewrite latest_timer_cons, <- deliver_timer by exact Hl.
  change (delivers (n :: ns) st) with (delivers ns (deliver n st)).
  apply IH. rewrite deliver_listening. exact Hl.
Qed.


Lemma delivers_listening (ns : list Notification) (st : Store) :
  listening (delivers ns st) = listening st.
Proof.
  revert st. induction ns as [|n ns IH]; intros st; [reflexivity|].
  change (delivers (n :: ns) st) with (delivers ns (deliver n st)).
  rewrite IH. apply deliver_listening.
Qed.

Lemma deliver_dropped (n : Notification) (st : Store) :
  event_name n ∉ listening st -> deliver n st = st.
Proof.
  intros Hn. unfold deliver. rewrite bool_decide_eq_false_2 by exact Hn.
  reflexivity.
Qed.

(** A store without listeners ignores every event. *)
Lemma delivers_unheard (ns : list Notification) (st : Store) :
  listening st = [] -> delivers ns st = st.
Proof.
  intros Hl. induction ns as [|n ns IH]; [reflexivity|].
  change (delivers (n :: ns) st) with (delivers ns (deliver n st)).
  rewrite deliver_dropped; [exact IH|]. rewrite Hl. apply not_elem_of_nil.
Qed.

(** Without the timer listener no event writes the timer. *)
Lemma delivers_timer_unheard (ns : list Notification) (st : Store) :
  "recording-timer" ∉ listening st -> timer (delivers ns st) = timer st.
Proof.
  revert st. induction ns as [|n ns IH]; intros st Hl; [reflexivity|].
  change (delivers (n :: ns) st) with (delivers ns (deliver n st)).
  rewrite IH by (rewrite deliver_listening; exact Hl).
  unfold deliver. case_bool_decide as Hin; [|reflexivity].
  destruct n; try reflexivity. contradiction.
Qed.

Section Mounting.
Context {B : Type} `{Backend B}.

(** A mount that completes has been through its five awaits, each answered
    with a value; the store it leaves is the new store with the answers
    written, the listeners added one by one, and the events of the last two
    gaps delivered to the listeners registered by then. *)
Lemma mount_completed (gaps : list (list Notification)) (b b' : B)
    (st : Store) (log : list Command) :
  mount gaps b = (st, b', Finished tt, log) ->
  exists (g0 g1 g2 g3 g4 : list Notification)
         (rest : list (list Notification)) (b1 b2 b3 b4 : B)
         (s : RecordingState) (r : bool),
    gaps = g0 :: g1 :: g2 :: g3 :: g4 :: rest
    /\ handle get_recording_status b = (b1, Resolved s)
    /\ handle get_replay_status b1 = (b2, Resolved r)
    /\ handle (listen "recording-state-changed") b2 = (b3, Resolved tt)
    /\ handle (listen "recording-timer") b3 = (b4, Resolved tt)
    /\ handle (listen "replay-state-changed") b4 = (b', Resolved tt)
    /\ log = mount_commands
    /\ st =
         addListener "replay-state-changed"
           (delivers g4
              (addListener "recording-timer"
                 (delivers g3
                    (addListener "recording-state-changed"
                       (setReplayActive r (setState s useRecording)))))).
Proof.
  unfold mount, onMount, subscribe, getRecordingStatus, getReplayStatus,
    invoke.
  cbn -[delivers].
  destruct gaps as [|g0 gaps]; cbn -[delivers]; [discriminate|].
  destruct (handle get_recording_status b) as [b1 [s|e1]] eqn:E1;
    cbn -[delivers]; [|destruct gaps; discriminate].
  rewrite (delivers_unheard g0) by reflexivity.
  destruct gaps as [|g1 gaps]; cbn -[delivers]; [discriminate|].
  destruct (handle get_replay_status b1) as [b2 [r|e2]] eqn:E2;
    cbn -[delivers]; [|destruct gaps; discriminate].
  rewrite (delivers_unheard g1) by reflexivity.
  destruct gaps as [|g2 gaps]; cbn -[delivers]; [discriminate|].
  destruct (handle (listen "recording-state-changed") b2)
    as [b3 [[]|e3]] eqn:E3; cbn -[delivers]; [|destruct gaps; discriminate].
  rewrite (delivers_unheard g2) by reflexivity.
  destruct gaps as [|g3 gaps]; cbn -[delivers]; [discriminate|].
  destruct (handle (listen "recording-timer") b3)
    as [b4 [[]|e4]] eqn:E4; cbn -[delivers]; [|destruct gaps; discriminate].
  destruct gaps as [|g4 gaps]; cbn -[delivers]; [discriminate|].
  destruct (handle (listen "replay-state-changed") b4)
    as [b5 [[]|e5]] eqn:E5; cbn -[delivers]; [|destruct gaps; discriminate].
  destruct gaps as [|g5 gaps]; cbn -[delivers]; intros [= <- <- <-];
    exists g0, g1, g2, g3, g4; eexists; exists b1, b2, b3, b4, s, r;
    repeat split; assumption.
Qed.



End Mounting.


End RecordingStoreFacts.

(** ** The recording status at run time *)

Module UntypedFacts.
Import Untyped.






End UntypedFacts.

(** ** The Library page *)

Module LibraryPageFacts.
Import LibraryPage.

Lemma filter_keeps_order (i : string) (prev : list Recording) :
  filter (fun r => id r ≠ i) prev `sublist_of` prev.
Proof. apply sublist_filter. Qed.

Lemma filter_splits (i : string) (before after : list Recording)
    (r : Recording) :
  filter (fun r => id r ≠ i) (before ++ r :: after) =
  filter (fun r => id r ≠ i) before
    ++ (if decide (id r = i) then [] else [r])
    ++ filter (fun r => id r ≠ i) after.
Proof.
  rewrite filter_app, filter_cons.
  destruct (decide (id r = i)) as [E|E]; destruct (decide (id r ≠ i));
    try contradiction; reflexivity.
Qed.

(** C10. When [handleDelete i] completes, it has invoked [delete_recording i]
    once and the list shown is the former list without the entries whose id
    is [i]: an entry is shown afterwards exactly when it was shown before
    and its id differs from [i], the entries kept are unchanged and in their
    former order, and the search text is untouched. The update is applied to
    the list as it stands when the call resolves. A rejected call leaves the
    list as it was. *)
Theorem handleDelete_removes_only_target {B : Type} `{Backend B}
    (i : string) (st : Store) (b : B) :
  exec (handleDelete i) st b [] =
    match handle (delete_recording i) b with
    | (b', Resolved _) =>
        (mkStore (filter (fun r => id r ≠ i) (recordings st)) (query st),
         b', [delete_recording i], Resolved tt)
    | (b', Rejected e) => (st, b', [delete_recording i], Rejected e)
    end
  /\ (forall r : Recording,
        r ∈ filter (fun r => id r ≠ i) (recordings st)
        <-> r ∈ recordings st /\ id r ≠ i)
  /\ filter (fun r => id r ≠ i) (recordings st) `sublist_of` recordings st
  /\ (forall (before after : list Recording) (r : Recording),
        recordings st = before ++ r :: after ->
        filter (fun r => id r ≠ i) (recordings st) =
          filter (fun r => id r ≠ i) before
            ++ (if decide (id r = i) then [] else [r])
            ++ filter (fun r => id r ≠ i) after)
  /\ exists k : unit -> Async Store unit,
       run_sync (handleDelete i) st = (st, Suspended (delete_recording i) k)
       /\ forall st2 : Store,
            resume (c := delete_recording i) k (Resolved tt) st2 =
              (mkStore (filter (fun r => id r ≠ i) (recordings st2))
                 (query st2), Finished tt).
Proof.
  split; [|split; [|split; [|split]]].
  - unfold handleDelete, deleteRecording, invoke. cbn.
    destruct (handle (delete_recording i) b) as [b' [v|e]]; reflexivity.
  - intros r. rewrite list_elem_of_filter. tauto.
  - apply filter_keeps_order.
  - intros before after r ->. apply filter_splits.
  - eexists. split; [reflexivity|]. intros st2. reflexivity.
Qed.

End LibraryPageFacts.

(** ** The Recorder page: rendering the elapsed time *)

Module FormatTimeFacts.
Import RecordingStore RecorderPage.
Local Arguments String.append !s1 s2 : simpl nomatch.

Example formatTime_59 : formatTime 59 = Some "00:59".
Proof. reflexivity. Qed.

Example formatTime_3725 : formatTime 3725 = Some "01:02:05".
Proof. reflexivity. Qed.

Example formatTime_360000 : formatTime 360000 = Some "100:00:00".
Proof. reflexivity. Qed.

(** Rounding a quotient to a multiple of 1/S and taking the floor gives the
    whole quotient, as long as the steps 1/S are finer than half of 1/b:
    the quotient is at least 1/b below the next whole number, too far to be
    rounded up to it. *)
Lemma round_then_floor (a b S m : Z) :
  0 <= a -> 0 < b -> 0 < S -> b < 2 * S ->
  (m = a * S / b \/ (m = a * S / b + 1 /\ b <= 2 * ((a * S) mod b))) ->
  m / S = a / b.
Proof.
  intros Ha Hb HS HbS Hm.
  pose proof (Z.div_mod a b ltac:(lia)) as Ea.
  pose proof (Z.mod_pos_bound a b Hb) as Ht.
  set (k := a / b) in *. set (t := a mod b) in *.
  assert (Eq : a * S = (k * S) * b + t * S) by (rewrite Ea at 1; ring).
  pose proof (Z.div_mod (t * S) b ltac:(lia)) as Eu.
  pose proof (Z.mod_pos_bound (t * S) b Hb) as Hrho.
  assert (Hq : a * S / b = k * S + t * S / b).
  { rewrite Eq, Z.div_add_l by lia. reflexivity. }
  assert (Hr : (a * S) mod b = (t * S) mod b).
  { rewrite Eq, Z.add_comm, Z.mod_add by lia. reflexivity. }
  set (u := t * S / b) in *. set (rho := (t * S) mod b) in *.
  assert (0 <= u) by (apply Z.div_pos; nia).
  assert (u < S) by (apply Z.div_lt_upper_bound; nia).
  symmetry. apply (Z.div_unique m S k (m - S * k)); [|ring].
  left. destruct Hm as [-> | [-> Hge]]; rewrite Hq.
  - nia.
  - rewrite Hr in Hge.
    assert (u + 1 < S); [|nia].
    destruct (Z_lt_le_dec (u + 1) S) as [?|Hu]; [assumption|exfalso].
    assert (u = S - 1) by lia. subst u.
    assert ((b - t) * S = b - rho) by nia.
    assert (S <= (b - t) * S) by nia.
    lia.
Qed.

(** Below 2^53 the division of doubles followed by [Math.floor] is the whole
    quotient. *)
Lemma floor_div_exact (a b : Z) :
  0 <= a < 2 ^ 53 -> 0 < b -> Math_floor (double_div a b) = a / b.
Proof.
  intros Ha Hb. unfold double_div.
  destruct (Z.eqb_spec (Z.abs a) 0) as [E|E].
  { assert (a = 0) by lia. subst a. reflexivity. }
  assert (Hpos : 0 < a) by lia.
  rewrite Z.abs_eq, Z.sgn_pos by lia. cbv zeta.
  set (e0 := Z.log2 a - Z.log2 b - 52).
  assert (Hla : Z.log2 a < 53) by (apply Z.log2_lt_pow2; lia).
  pose proof (Z.log2_nonneg b) as Hlb.
  pose proof (Z.log2_spec b Hb) as [_ Hb2].
  rewrite Z.pow_succ_r in Hb2 by exact Hlb.
  set (e := if a * 2 ^ Z.max 0 (- e0) <? 2 ^ 52 * (b * 2 ^ Z.max 0 e0)
            then e0 - 1 else e0).
  assert (He : e <= - Z.log2 b).
  { subst e e0. destruct (_ <? _); lia. }
  rewrite (Z.max_r 0 (- e)), (Z.max_l 0 e) by lia.
  change (2 ^ 0) with 1. rewrite Z.mul_1_r.
  set (S := 2 ^ (- e)).
  assert (HS : 2 ^ Z.log2 b <= S) by (apply Z.pow_le_mono_r; lia).
  assert (HS0 : 0 < S) by (apply Z.pow_pos_nonneg; lia).
  set (m := if 2 * ((a * S) mod b) <? b then a * S / b
            else if b <? 2 * ((a * S) mod b) then a * S / b + 1
            else if Z.even (a * S / b) then a * S / b else a * S / b + 1).
  assert (Hm : m = a * S / b
               \/ (m = a * S / b + 1 /\ b <= 2 * ((a * S) mod b))).
  { subst m. destruct (Z.ltb_spec (2 * ((a * S) mod b)) b); [left; reflexivity|].
    destruct (b <? 2 * ((a * S) mod b));
      [right; split; [reflexivity|assumption]|].
    destruct (Z.even (a * S / b));
      [left; reflexivity|right; split; [reflexivity|assumption]]. }
  rewrite Z.mul_1_l.
  assert (Hfloor : Math_floor (m, e) = m / S).
  { unfold Math_floor. destruct (Z.leb_spec 0 e); [|reflexivity].
    assert (e = 0) by lia. subst S. replace e with 0 by lia.
    change (2 ^ (- 0)) with 1. change (2 ^ 0) with 1.
    rewrite Z.mul_1_r, Z.div_1_r. reflexivity. }
  rewrite Hfloor. apply round_then_floor; lia.
Qed.

Lemma colon_free_app (a b : string) :
  colon_free (a +:+ b) = colon_free a && colon_free b.
Proof.
  induction a as [|c a IH]; cbn; [reflexivity|].
  rewrite IH. apply andb_assoc.
Qed.

Lemma split_colon_field (a b : string) :
  colon_free a = true ->
  split_colon (a +:+ ":" +:+ b) = a :: split_colon b.
Proof.
  induction a as [|c a IH]; [reflexivity|].
  cbn [colon_free]. intros [Hc Ha]%andb_prop. apply negb_true_iff in Hc.
  change (String c a +:+ ":" +:+ b) with (String c (a +:+ ":" +:+ b)).
  cbn [split_colon]. rewrite Hc, (IH Ha). reflexivity.
Qed.

Lemma split_colon_last (a : string) :
  colon_free a = true -> split_colon a = [a].
Proof.
  induction a as [|c a IH]; cbn; [reflexivity|].
  intros [Hc Ha]%andb_prop. apply negb_true_iff in Hc.
  rewrite Hc, (IH Ha). reflexivity.
Qed.

Lemma colon_free_uint (d : Decimal.uint) :
  colon_free (NilEmpty.string_of_uint d) = true.
Proof. induction d; cbn; auto. Qed.

Lemma colon_free_fill (cur : string) (n : nat) :
  colon_free cur = true -> colon_free (fill_to "0" cur n) = true.
Proof.
  revert cur. induction n as [|n IH]; intros cur Hc; [reflexivity|].
  destruct cur as [|c rest]; cbn.
  - apply IH. reflexivity.
  - cbn in Hc. apply andb_prop in Hc as [Hc Hr].
    rewrite Hc. apply IH, Hr.
Qed.

(** The digits of a number that is not negative. *)
Lemma toString_nonneg (k : Z) :
  0 <= k ->
  exists d : Decimal.uint,
    d <> Decimal.Nil /\ Z.to_int k = Decimal.Pos d
    /\ toString k = NilEmpty.string_of_uint d.
Proof.
  intros Hk. unfold toString. destruct k as [|p|p]; [| |lia].
  - exists (Decimal.D0 Decimal.Nil). repeat split. discriminate.
  - exists (Pos.to_uint p). split; [apply DecimalPos.Unsigned.to_uint_nonnil|].
    split; [reflexivity|]. cbn.
    destruct (Pos.to_uint p) eqn:E; try reflexivity.
    exfalso. exact (DecimalPos.Unsigned.to_uint_nonnil p E).
Qed.

Lemma colon_free_pad (k : Z) : 0 <= k -> colon_free (pad k) = true.
Proof.
  intros Hk. destruct (toString_nonneg k Hk) as (d & _ & _ & Hs).
  unfold pad, padStart. rewrite colon_free_app, Hs, colon_free_uint.
  rewrite colon_free_fill; reflexivity.
Qed.

Lemma padStart_length (s : string) :
  String.length (padStart 2 "0" s) = Nat.max 2 (String.length s).
Proof.
  unfold padStart. destruct s as [|c1 [|c2 s]]; reflexivity.
Qed.

(** A field of one digit gets one zero in front; a longer one is left as it
    is. *)
Lemma pad_cases (k : Z) :
  0 <= k ->
  (String.length (toString k) = 1%nat /\ pad k = String "0" (toString k))
  \/ ((2 <= String.length (toString k))%nat /\ pad k = toString k).
Proof.
  intros Hk. destruct (toString_nonneg k Hk) as (d & Hd & _ & Hs).
  unfold pad, padStart. rewrite Hs.
  destruct (NilEmpty.string_of_uint d) as [|c1 [|c2 s]] eqn:E.
  - destruct d; cbn in E; congruence.
  - left. split; reflexivity.
  - right. split; [cbn; lia|reflexivity].
Qed.

Lemma readField_pad (k : Z) : 0 <= k -> readField (pad k) = Some k.
Proof.
  intros Hk. destruct (toString_nonneg k Hk) as (d & Hd & Hi & Hs).
  assert (Hv : Z.of_int (Decimal.Pos d) = k).
  { rewrite <- Hi. apply DecimalZ.of_to. }
  assert (Hu : NilEmpty.uint_of_string (toString k) = Some d).
  { rewrite Hs. apply NilEmpty.usu. }
  destruct (pad_cases k Hk) as [[Hlen ->]|[Hlen ->]].
  - unfold readField. cbn. rewrite Hu. cbn. f_equal. exact Hv.
  - unfold readField, toString. rewrite NilZero.isi.
    + cbn. f_equal. apply DecimalZ.of_to.
    + rewrite Hi. congruence.
    + rewrite Hi. discriminate.
Qed.

Lemma pad_two_digits (k : Z) :
  0 <= k < 60 -> String.length (pad k) = 2%nat.
Proof.
  intros Hk.
  assert (Hall : forall n : nat,
            (n < 60)%nat -> String.length (pad (Z.of_nat n)) = 2%nat).
  { intros n Hn. do 60 (destruct n as [|n]; [reflexivity|]). lia. }
  rewrite <- (Z2Nat.id k) by lia. apply Hall. lia.
Qed.

Lemma formatTime_spec_nonneg (n : Z) :
  0 <= n ->
  formatTime_spec n =
    if 0 <? n / 3600
    then pad (n / 3600) +:+ ":" +:+ pad (n mod 3600 / 60) +:+ ":"
           +:+ pad (n mod 60)
    else pad (n mod 3600 / 60) +:+ ":" +:+ pad (n mod 60).
Proof.
  intros Hn. unfold formatTime_spec.
  rewrite !Z.rem_mod_nonneg by lia. reflexivity.
Qed.

(** Below 2^53 the code computes the fields exactly: it renders what the
    specification describes. *)
Lemma formatTime_exact (n : Z) :
  0 <= n < 2 ^ 53 -> formatTime n = Some (formatTime_spec n).
Proof.
  intros Hn. unfold formatTime, formatTime_spec, is_double.
  rewrite Z.abs_eq by lia.
  rewrite (proj2 (Z.ltb_lt n (2 ^ 53))) by lia. cbn [orb]. cbv zeta.
  rewrite !Z.rem_mod_nonneg by lia.
  pose proof (Z.mod_pos_bound n 3600 ltac:(lia)).
  rewrite !floor_div_exact by lia.
  destruct (0 <? n / 3600); [|reflexivity].
  assert (n / 3600 < 2 ^ 53) by (apply Z.div_lt_upper_bound; lia).
  rewrite (proj2 (Z.ltb_lt (n / 3600) (2 ^ 53))) by lia. reflexivity.
Qed.

Lemma formatTime_nonneg (n : Z) :
  0 <= n < 2 ^ 53 ->
  formatTime n =
    Some (if 0 <? n / 3600
          then pad (n / 3600) +:+ ":" +:+ pad (n mod 3600 / 60) +:+ ":"
                 +:+ pad (n mod 60)
          else pad (n mod 3600 / 60) +:+ ":" +:+ pad (n mod 60)).
Proof.
  intros Hn. rewrite formatTime_exact by exact Hn.
  rewrite formatTime_spec_nonneg by lia. reflexivity.
Qed.

Lemma fields_recombine (n : Z) :
  0 <= n ->
  0 <= n / 3600 /\ 0 <= n mod 3600 / 60 < 60 /\ 0 <= n mod 60 < 60
  /\ n / 3600 * 3600 + n mod 3600 / 60 * 60 + n mod 60 = n.
Proof.
  intros Hn.
  pose proof (Z.div_mod n 3600 ltac:(lia)) as H1.
  pose proof (Z.mod_pos_bound n 3600 ltac:(lia)) as H2.
  pose proof (Z.div_mod (n mod 3600) 60 ltac:(lia)) as H3.
  pose proof (Z.mod_pos_bound (n mod 3600) 60 ltac:(lia)) as H4.
  pose proof (Z.mod_pos_bound n 60 ltac:(lia)) as H5.
  assert (H6 : (n mod 3600) mod 60 = n mod 60).
  { symmetry. rewrite H1 at 1.
    replace (3600 * (n / 3600) + n mod 3600)
      with (n mod 3600 + (60 * (n / 3600)) * 60) by lia.
    apply Z.mod_add. lia. }
  assert (0 <= n / 3600) by (apply Z.div_pos; lia).
  assert (0 <= n mod 3600 / 60) by (apply Z.div_pos; lia).
  assert (n mod 3600 / 60 < 60) by (apply Z.div_lt_upper_bound; lia).
  lia.
Qed.

(** C9 (as amended). For every whole number of seconds n from 0 up to, not
    including, 2^53 (the range in which a JS number holds every whole
    number), with h = floor(n / 3600), m = floor((n mod 3600) / 60) and
    s = n mod 60, [formatTime n] is "h:m:s" exactly when h > 0 and "m:s"
    otherwise, every field padded with zeros to at least two digits (m and
    s, being below 60, to exactly two); the fields between the colons are
    these paddings, each reads back as its number, and read back together
    they give n again. *)
Theorem formatTime_renders_fields (n : Z) (Hn : 0 <= n < 2 ^ 53) :
  let h := n / 3600 in
  let m := n mod 3600 / 60 in
  let s := n mod 60 in
  let text :=
    if 0 <? h then pad h +:+ ":" +:+ pad m +:+ ":" +:+ pad s
    else pad m +:+ ":" +:+ pad s in
  formatTime n = Some text
  /\ pad h = padStart 2 "0" (toString h)
  /\ (2 <= String.length (pad h))%nat
  /\ String.length (pad m) = 2%nat
  /\ String.length (pad s) = 2%nat
  /\ split_colon text =
       (if 0 <? h then [pad h; pad m; pad s] else [pad m; pad s])
  /\ readField (pad h) = Some h
  /\ readField (pad m) = Some m
  /\ readField (pad s) = Some s
  /\ h * 3600 + m * 60 + s = n
  /\ recombine text = Some n.
Proof.
  intros h m s text.
  destruct (fields_recombine n (proj1 Hn)) as (Hh & Hm & Hs & Hsum).
  fold h m s in Hh, Hm, Hs, Hsum.
  assert (Hsplit : split_colon text =
            (if 0 <? h then [pad h; pad m; pad s] else [pad m; pad s])).
  { subst text. destruct (0 <? h).
    - rewrite split_colon_field by (apply colon_free_pad; lia).
      rewrite split_colon_field by (apply colon_free_pad; lia).
      rewrite split_colon_last by (apply colon_free_pad; lia).
      reflexivity.
    - rewrite split_colon_field by (apply colon_free_pad; lia).
      rewrite split_colon_last by (apply colon_free_pad; lia).
      reflexivity. }
  split; [apply formatTime_nonneg, Hn|].
  split; [reflexivity|].
  split; [unfold pad; rewrite padStart_length; lia|].
  split; [apply pad_two_digits, Hm|].
  split; [apply pad_two_digits, Hs|].
  split; [exact Hsplit|].
  split; [apply readField_pad, Hh|].
  split; [apply readField_pad; lia|].
  split; [apply readField_pad; lia|].
  split; [exact Hsum|].
  unfold recombine. rewrite Hsplit.
  destruct (0 <? h) eqn:E.
  - rewrite !readField_pad by lia. cbn. f_equal. exact Hsum.
  - rewrite !readField_pad by lia. cbn. f_equal.
    apply Z.ltb_ge in E. assert (h = 0) by lia. lia.
Qed.

(** One hour, two minutes and five seconds. *)
Lemma formatTime_renders_fields_witness :
  0 <= 3725 < 2 ^ 53
  /\ formatTime 3725 = Some "01:02:05"
  /\ recombine "01:02:05" = Some 3725.
Proof.
  assert (Hn : 0 <= 3725 < 2 ^ 53) by (split; [lia|reflexivity]).
  split; [exact Hn|].
  pose proof (formatTime_renders_fields 3725 Hn) as H.
  cbv zeta in H.
  split; [exact (proj1 H)|].
  exact (proj2 (proj2 (proj2 (proj2 (proj2 (proj2 (proj2 (proj2 (proj2
    (proj2 H)))))))))).
Defined.

(** C9, as stated for every n: 253327479039593984 seconds (a double: 32
    times 7916483719987312) are 70368744177664 hours, 59 minutes and 44
    seconds. The quotient by 3600 lies 16/3600 below 70368744177665 and the
    doubles of that size are 1/64 apart, so the division rounds it up to
    70368744177665: the hours field shows one hour too many and the fields
    read back to n + 3600. *)
Lemma formatTime_wrong_beyond_2_53 :
  0 <= 253327479039593984
  /\ is_double 253327479039593984 = true
  /\ 253327479039593984 / 3600 = 70368744177664
  /\ formatTime 253327479039593984 = Some "70368744177665:59:44"
  /\ formatTime 253327479039593984
       <> Some (formatTime_spec 253327479039593984)
  /\ recombine "70368744177665:59:44" = Some (253327479039593984 + 3600)
  /\ recombine "70368744177665:59:44" <> Some 253327479039593984.
Proof.
  split; [lia|].
  split; [vm_compute; reflexivity|].
  split; [vm_compute; reflexivity|].
  split; [vm_compute; reflexivity|].
  split; [vm_compute; discriminate|].
  split; [vm_compute; reflexivity|].
  vm_compute; discriminate.
Qed.

End FormatTimeFacts.

(** ** The replay ring buffer *)

Module ReplayRingBufferFacts.
Import ReplayRingBuffer.
Local Open Scope N_scope.

Lemma cumulative_cons (x : ReplaySegment) (l : list ReplaySegment) :
  cumulative (x :: l) = Npos (duration x) + cumulative l.
Proof. reflexivity. Qed.

Lemma cumulative_app (l1 l2 : list ReplaySegment) :
  cumulative (l1 ++ l2) = cumulative l1 + cumulative l2.
Proof.
  induction l1 as [|x l1 IH]; [reflexivity|].
  change ((x :: l1) ++ l2) with (x :: (l1 ++ l2)).
  rewrite !cumulative_cons, IH. lia.
Qed.

Lemma cumulative_reverse (l : list ReplaySegment) :
  cumulative (reverse l) = cumulative l.
Proof.
  induction l as [|x l IH]; [reflexivity|].
  rewrite reverse_cons, cumulative_app, IH, !cumulative_cons. cbn. lia.
Qed.

(** Eviction keeps a suffix, keeps the running total right and ends at or
    below the capacity. *)
Lemma evict_spec (segs : list ReplaySegment) (total cap : N) :
  total = cumulative segs ->
  snd (evict segs total cap) = cumulative (fst (evict segs total cap))
  /\ snd (evict segs total cap) <= cap
  /\ fst (evict segs total cap) `suffix_of` segs.
Proof.
  revert total. induction segs as [|x segs IH]; intros total Ht.
  - cbn. subst. cbn. repeat split; [lia|reflexivity].
  - cbn. destruct (cap <? total) eqn:E.
    + destruct (IH (total - Npos (duration x))) as (H1 & H2 & H3).
      { rewrite Ht, cumulative_cons. lia. }
      repeat split; [exact H1|exact H2|]. apply suffix_cons_r, H3.
    + cbn. apply N.ltb_ge in E. repeat split; [exact Ht|exact E|reflexivity].
Qed.

Lemma append_spec (seg : ReplaySegment) (b : ReplayBuffer) :
  consistent b ->
  consistent (append seg b)
  /\ capacity (append seg b) = capacity b
  /\ total_duration (append seg b) <= capacity b
  /\ segments (append seg b) `suffix_of` segments b ++ [seg].
Proof.
  intros Hc. unfold append, evict_to_capacity, consistent. cbn.
  destruct (evict_spec (segments b ++ [seg])
              (total_duration b + Npos (duration seg)) (capacity b))
    as (H1 & H2 & H3).
  { rewrite cumulative_app, Hc. cbn. lia. }
  destruct (evict _ _ _) as [segs total]. cbn in *. auto.
Qed.

Lemma appends_spec (segs : list ReplaySegment) (b : ReplayBuffer) :
  consistent b -> total_duration b <= capacity b ->
  consistent (appends segs b)
  /\ capacity (appends segs b) = capacity b
  /\ total_duration (appends segs b) <= capacity b.
Proof.
  revert b. induction segs as [|seg segs IH]; intros b Hc Hb.
  - cbn. auto.
  - destruct (append_spec seg b Hc) as (H1 & H2 & H3 & _).
    change (appends (seg :: segs) b) with (appends segs (append seg b)).
    destruct (IH (append seg b) H1) as (H4 & H5 & H6); [lia|].
    rewrite H5, H2 in *. auto.
Qed.

(** Scenario A: capacity 30, segments of 2; after 20 appends the 15 most
    recent segments are retained, 30 in total. *)
Example scenario_A :
  segments (appends (stream 2 20) (new 30)) = drop 5 (stream 2 20)
  /\ total_duration (appends (stream 2 20) (new 30)) = 30.
Proof. split; reflexivity. Qed.

(** C2. For every capacity C and every bound L on the duration of a
    segment, after any sequence of appends to a new buffer of capacity C the
    running total, which is the duration of the retained segments, is at
    most C + L. *)
Theorem retained_duration_bounded (C L : N) (segs : list ReplaySegment)
    (HL : Forall (fun s => Npos (duration s) <= L) segs) :
  total_duration (appends segs (new C)) <= C + L
  /\ cumulative (segments (appends segs (new C))) <= C + L
  /\ total_duration (appends segs (new C)) =
       cumulative (segments (appends segs (new C))).
Proof.
  destruct (appends_spec segs (new C)) as (H1 & H2 & H3).
  { reflexivity. }
  { cbn. lia. }
  cbn in H3. unfold consistent in H1. rewrite <- H1. lia.
Qed.

(** Capacity 30 and twenty segments of duration 2. *)
Lemma retained_duration_bounded_witness :
  Forall (fun s => Npos (duration s) <= 2) (stream 2 20)
  /\ total_duration (appends (stream 2 20) (new 30)) <= 30 + 2.
Proof.
  assert (HL : Forall (fun s => Npos (duration s) <= 2) (stream 2 20)).
  { apply Forall_forall. intros x Hx. apply list_elem_of_fmap in Hx.
    destruct Hx as (i & -> & _). cbn. lia. }
  split; [exact HL|].
  exact (proj1 (retained_duration_bounded 30 2 (stream 2 20) HL)).
Defined.

Lemma collect_prefix (r : list ReplaySegment) (need : N) :
  collect r need `prefix_of` r.
Proof.
  revert need. induction r as [|x r IH]; intros need; cbn.
  - reflexivity.
  - destruct (need =? 0); [apply prefix_nil|]. apply prefix_cons, IH.
Qed.

Lemma collect_enough (r : list ReplaySegment) (need : N) :
  need <= cumulative r -> need <= cumulative (collect r need).
Proof.
  revert need. induction r as [|x r IH]; intros need Hn; cbn.
  - exact Hn.
  - destruct (need =? 0) eqn:E.
    + apply N.eqb_eq in E. cbn. lia.
    + rewrite cumulative_cons in *.
      specialize (IH (need - Npos (duration x))). lia.
Qed.

Lemma collect_minimal (r p : list ReplaySegment) (need : N) :
  p `prefix_of` r -> need <= cumulative p ->
  (length (collect r need) <= length p)%nat.
Proof.
  revert p need. induction r as [|x r IH]; intros p need Hp Hn; cbn.
  - lia.
  - destruct (need =? 0) eqn:E; [cbn; lia|].
    apply N.eqb_neq in E.
    destruct p as [|y p]; [cbn in Hn; lia|].
    apply prefix_cons_inv_1 in Hp as Hxy. subst y.
    apply prefix_cons_inv_2 in Hp.
    rewrite cumulative_cons in Hn. cbn.
    specialize (IH p (need - Npos (duration x)) Hp). lia.
Qed.

(** A proper suffix lacks at least one segment, and every segment has a
    positive duration. *)
Lemma suffix_cumulative (l segs : list ReplaySegment) :
  l `suffix_of` segs -> cumulative segs <= cumulative l -> l = segs.
Proof.
  intros [k ->] Hc. rewrite cumulative_app in Hc.
  destruct k as [|x k]; [reflexivity|].
  rewrite cumulative_cons in Hc. lia.
Qed.

(** C3. For every buffer whose running total is the duration of its
    contents and every requested duration s, [snapshot_suffix s] is a
    trailing run of the retained segments, in their order, whose cumulative
    duration is at least min(s, total), and no shorter trailing run reaches
    that duration; when the total is below s it is the entire buffer, and on
    an empty buffer it is empty. *)
Theorem snapshot_suffix_minimal (b : ReplayBuffer) (s : N)
    (Hc : consistent b) :
  snapshot_suffix s b `suffix_of` segments b
  /\ N.min s (total_duration b) <= cumulative (snapshot_suffix s b)
  /\ (forall l : list ReplaySegment,
        l `suffix_of` segments b ->
        N.min s (total_duration b) <= cumulative l ->
        (length (snapshot_suffix s b) <= length l)%nat)
  /\ (total_duration b < s -> snapshot_suffix s b = segments b)
  /\ (segments b = [] -> snapshot_suffix s b = []).
Proof.
  unfold consistent in Hc. unfold snapshot_suffix.
  destruct (total_duration b <? s) eqn:E.
  - apply N.ltb_lt in E. repeat split.
    + reflexivity.
    + lia.
    + intros l Hl Hmin. rewrite N.min_r in Hmin by lia.
      rewrite (suffix_cumulative l (segments b) Hl); [lia|]. lia.
    + auto.
  - apply N.ltb_ge in E. repeat split.
    + apply suffix_prefix_reverse. rewrite reverse_involutive.
      apply collect_prefix.
    + rewrite N.min_l by lia. rewrite cumulative_reverse.
      apply collect_enough. rewrite cumulative_reverse. lia.
    + intros l Hl Hmin. rewrite N.min_l in Hmin by lia.
      rewrite length_reverse, <- (length_reverse l).
      apply collect_minimal.
      * apply prefix_suffix_reverse. rewrite !reverse_involutive. exact Hl.
      * rewrite cumulative_reverse. exact Hmin.
    + lia.
    + intros ->. reflexivity.
Qed.

(** Three retained segments of duration 2 and a request for 3: the last two
    are returned. *)
Lemma snapshot_suffix_minimal_witness :
  consistent (mkReplayBuffer (stream 2 3) 30 6)
  /\ snapshot_suffix 3 (mkReplayBuffer (stream 2 3) 30 6) =
       drop 1 (stream 2 3)
  /\ 3 <= cumulative (snapshot_suffix 3 (mkReplayBuffer (stream 2 3) 30 6)).
Proof.
  assert (Hc : consistent (mkReplayBuffer (stream 2 3) 30 6)).
  { reflexivity. }
  split; [exact Hc|]. split; [reflexivity|].
  exact (proj1 (proj2
    (snapshot_suffix_minimal (mkReplayBuffer (stream 2 3) 30 6) 3 Hc))).
Defined.

(** Scenarios C and D on a buffer of 25: a request for 10 is met by the most
    recent 10, a request for 40 by all 25. *)
Example scenario_C_D :
  cumulative (snapshot_suffix 10 (mkReplayBuffer (stream 5 5) 30 25)) = 10
  /\ snapshot_suffix 40 (mkReplayBuffer (stream 5 5) 30 25) = stream 5 5.
Proof. split; reflexivity. Qed.

End ReplayRingBufferFacts.

(** ** The "Save Last 30s" button against the replay controller *)

Module SessionFacts.
Import RecordingStore RecorderPage ReplayController Session.

(** The second toggle has switched replay off in the core, the store still
    shows it on, and the save button is enabled: its request is answered
    with [ReplayInactive]. *)
Lemma save_button_reaches_ReplayInactive :
  replayActive (ui (run (H := replay_core) switching_off fresh)) = true
  /\ disabled SaveButton (ui (run (H := replay_core) switching_off fresh))
       = false
  /\ active (fst (core (run (H := replay_core) switching_off fresh)))
       = false
  /\ answered
       (step (H := replay_core) (Click SaveButton)
          (run (H := replay_core) switching_off fresh)) =
     [(toggle_replay_buffer, None); (toggle_replay_buffer, None);
      (save_replay_clip (Some 30), Some "ReplayInactive")].
Proof. repeat split. Qed.

Section AnyCore.
Context (concatenate : list ReplayRingBuffer.ReplaySegment -> string).
Context {O : Type} `{Backend O}.

Lemma saveClip_inactive (seconds : option Z) (ctl : Controller) :
  active ctl = false ->
  saveClip concatenate seconds ctl = Rejected "ReplayInactive".
Proof. intros Ha. unfold saveClip. rewrite Ha. reflexivity. Qed.

Lemma saveClip_active (seconds : option Z) (ctl : Controller) :
  active ctl = true ->
  failure (saveClip concatenate seconds ctl) <> Some "ReplayInactive".
Proof.
  intros Ha. unfold saveClip. rewrite Ha. cbn.
  destruct (buffer ctl) as [b|]; [|discriminate].
  destruct (_ =? _)%N; discriminate.
Qed.

End AnyCore.

End SessionFacts.

(** ** The "Save Last 30s" button, with requests that take time *)

Module TransitFacts.
Import RecordingStore RecorderPage ReplayController Session Transit.

(** C6, as stated: the second toggle has switched replay off in the core,
    its answer has not come back, and the store still shows replay on. The
    save button is enabled; it is pressed, and the core answers its request
    with [ReplayInactive]. *)
Lemma save_request_reaches_ReplayInactive :
  replayActive
    (page (play (H := replay_core) switched_off_unanswered opened)) = true
  /\ disabled SaveButton
       (page (play (H := replay_core) switched_off_unanswered opened))
     = false
  /\ active
       (fst (backend (play (H := replay_core) switched_off_unanswered
                        opened))) = false
  /\ sent_request
       <$> outgoing
             (move (H := replay_core) (Press SaveButton)
                (play (H := replay_core) switched_off_unanswered opened))
     = [save_replay_clip (Some 30)]
  /\ served
       (play (H := replay_core) [Press SaveButton; Serve 0%nat]
          (play (H := replay_core) switched_off_unanswered opened)) =
     [(toggle_replay_buffer, None); (toggle_replay_buffer, None);
      (save_replay_clip (Some 30), Some "ReplayInactive")].
Proof. repeat split. Qed.

(** Replay is on and the store shows it. The toggle is pressed and, before
    its request is served, Save: at that click the flag and the core agree
    and the button is enabled. The core serves the toggle request first and
    answers the save request with [ReplayInactive]. *)
Lemma toggle_on_its_way_defeats_guard :
  replayActive (page (play (H := replay_core) [Press ReplayToggle]
                        (play (H := replay_core) replay_on opened))) = true
  /\ active (fst (backend (play (H := replay_core) [Press ReplayToggle]
                             (play (H := replay_core) replay_on opened))))
     = true
  /\ served (play (H := replay_core) toggle_then_save
               (play (H := replay_core) replay_on opened)) =
     [(toggle_replay_buffer, None); (toggle_replay_buffer, None);
      (save_replay_clip (Some 30), Some "ReplayInactive")].
Proof. repeat split. Qed.

Section AnyCore.
Context (concatenate : list ReplayRingBuffer.ReplaySegment -> string).
Context {O : Type} `{Backend O}.

(** A move that does not serve a toggle request leaves replay mode on in
    the core, and a save request it serves is not answered
    [ReplayInactive]. *)
Lemma move_keeps_replay_on (m : Move) (w : Wire (Controller * O)) :
  active (fst (backend w)) = true ->
  serves_toggle m w = false ->
  active (fst (backend (move (H := core_backend concatenate) m w))) = true
  /\ forall entry : Command * option string,
       entry ∈ served (move (H := core_backend concatenate) m w) ->
       entry ∈ served w
       \/ (forall seconds : option Z,
             fst entry = save_replay_clip seconds ->
             snd entry <> Some "ReplayInactive").
Proof.
  intros Ha Hq. destruct m as [b|i|i]; cbn [move].
  - destruct (click b (page w)) as [st p]. destruct p; cbn; auto.
  - unfold serves_toggle in Hq.
    destruct (outgoing w !! i) as [[c k]|] eqn:E; [|auto].
    cbn in Hq.
    assert (Hnew : forall (r : option string) (l : list (Command * option string)),
              (forall seconds : option Z,
                 c = save_replay_clip seconds -> r <> Some "ReplayInactive") ->
              forall entry : Command * option string,
                entry ∈ l ++ [(c, r)] ->
                entry ∈ l
                \/ (forall seconds : option Z,
                      fst entry = save_replay_clip seconds ->
                      snd entry <> Some "ReplayInactive")).
    { intros r l Hr entry Hin. apply elem_of_app in Hin as [Hin|Hin];
        [left; exact Hin|right].
      apply list_elem_of_singleton in Hin. subst entry. exact Hr. }
    destruct c; cbn in Hq |- *; try discriminate Hq.
    + destruct (handle start_recording (snd (backend w))) as [o r]. cbn.
      split; [exact Ha|]. apply Hnew. discriminate.
    + destruct (handle stop_recording (snd (backend w))) as [o r]. cbn.
      split; [exact Ha|]. apply Hnew. discriminate.
    + destruct (handle get_recording_status (snd (backend w))) as [o r]. cbn.
      split; [exact Ha|]. apply Hnew. discriminate.
    + split; [exact Ha|]. apply Hnew. intros _ _.
      apply SessionFacts.saveClip_active. exact Ha.
    + split; [exact Ha|]. apply Hnew. discriminate.
    + destruct (handle (delete_recording id) (snd (backend w))) as [o r]. cbn.
      split; [exact Ha|]. apply Hnew. discriminate.
    + destruct (handle (listen event) (snd (backend w))) as [o r]. cbn.
      split; [exact Ha|]. apply Hnew. discriminate.
  - destruct (returning w !! i) as [f|]; [|auto].
    destruct (resume (continuation f) (reply f) (page w)) as [st p].
    destruct p; cbn; auto.
Qed.

Lemma run_keeps_replay_on (ms : list Move) (w : Wire (Controller * O)) :
  active (fst (backend w)) = true ->
  toggle_served (H := core_backend concatenate) ms w = false ->
  forall entry : Command * option string,
    entry ∈ served (play (H := core_backend concatenate) ms w) ->
    entry ∈ served w
    \/ (forall seconds : option Z,
          fst entry = save_replay_clip seconds ->
          snd entry <> Some "ReplayInactive").
Proof.
  revert w. induction ms as [|m ms IH]; intros w Ha Hq entry Hin;
    [left; exact Hin|].
  cbn [toggle_served] in Hq. apply orb_false_iff in Hq as [Hm Hrest].
  destruct (move_keeps_replay_on m w Ha Hm) as [Ha' Hnew].
  change (play (H := core_backend concatenate) (m :: ms) w)
    with (play (H := core_backend concatenate) ms
            (move (H := core_backend concatenate) m w)) in Hin.
  destruct (IH _ Ha' Hrest entry Hin) as [Hold|Hgood];
    [apply Hnew, Hold|right; exact Hgood].
Qed.

(** C6 (as amended). A save-clip request fails with [ReplayInactive] when
    replay mode is off. The "Save Last 30s" button is disabled in every
    store whose [replayActive] flag is false, and a click then sends
    nothing; when enabled, a click sends [save_replay_clip] with exactly 30
    seconds and nothing else. When the flag agrees with the core's replay
    mode at the click and the core serves no toggle request from then on,
    no save request served from then on, that of this click among them, is
    answered [ReplayInactive]. *)
Theorem save_button_guard (w : Wire (Controller * O)) (ms : list Move)
    (Hagree : replayActive (page w) = active (fst (backend w)))
    (Hquiet : toggle_served (H := core_backend concatenate) ms
                (move (H := core_backend concatenate) (Press SaveButton) w)
              = false) :
  (forall (seconds : option Z) (ctl : Controller),
     active ctl = false ->
     saveClip concatenate seconds ctl = Rejected "ReplayInactive")
  /\ (forall st : Store,
        replayActive st = false ->
        disabled SaveButton st = true
        /\ click SaveButton st = (st, Finished tt))
  /\ (forall st : Store,
        disabled SaveButton st = false ->
        awaited (snd (click SaveButton st)) =
          Some (save_replay_clip (Some 30)))
  /\ (replayActive (page w) = false ->
      move (H := core_backend concatenate) (Press SaveButton) w = w)
  /\ (replayActive (page w) = true ->
      page (move (H := core_backend concatenate) (Press SaveButton) w)
        = page w
      /\ backend (move (H := core_backend concatenate) (Press SaveButton) w)
          = backend w
      /\ sent_request
           <$> outgoing
                 (move (H := core_backend concatenate) (Press SaveButton) w)
         = (sent_request <$> outgoing w) ++ [save_replay_clip (Some 30)]
      /\ forall entry : Command * option string,
           entry ∈ served
                     (play (H := core_backend concatenate) ms
                        (move (H := core_backend concatenate)
                           (Press SaveButton) w)) ->
           entry ∈ served w
           \/ (forall seconds : option Z,
                 fst entry = save_replay_clip seconds ->
                 snd entry <> Some "ReplayInactive")).
Proof.
  split; [exact (SessionFacts.saveClip_inactive concatenate)|].
  split.
  { intros st Hst. unfold click, disabled. rewrite Hst. split; reflexivity. }
  split.
  { intros st Hst. unfold click. rewrite Hst. reflexivity. }
  split.
  { intros Hoff. destruct w as [pg bk out ret sv]. cbn in Hoff.
    cbn. unfold click, disabled. rewrite Hoff. reflexivity. }
  intros Hon.
  assert (Hmove : move (H := core_backend concatenate) (Press SaveButton) w =
            mkWire (page w) (backend w)
              (outgoing w
                 ++ [mkSent (save_replay_clip (Some 30))
                       (fun _ => Return tt)])
              (returning w) (served w)).
  { cbn. unfold click, disabled. rewrite Hon. reflexivity. }
  rewrite Hmove in Hquiet |- *. cbn [page backend outgoing].
  split; [reflexivity|]. split; [reflexivity|].
  split; [rewrite fmap_app; reflexivity|].
  intros entry Hin.
  apply (run_keeps_replay_on ms _) in Hin; [exact Hin| |exact Hquiet].
  cbn. rewrite <- Hagree. exact Hon.
Qed.

End AnyCore.

(** Replay switched on and acknowledged; Save is pressed, its request is
    served and the answer lands: [EmptyBuffer], no segment having been
    written. *)
Lemma save_button_guard_witness :
  replayActive (page (play (H := replay_core) replay_on opened)) =
    active (fst (backend (play (H := replay_core) replay_on opened)))
  /\ toggle_served (H := replay_core) [Serve 0%nat; Land 0%nat]
       (move (H := replay_core) (Press SaveButton)
          (play (H := replay_core) replay_on opened)) = false
  /\ served (play (H := replay_core) [Serve 0%nat; Land 0%nat]
               (move (H := replay_core) (Press SaveButton)
                  (play (H := replay_core) replay_on opened))) =
     [(toggle_replay_buffer, None);
      (save_replay_clip (Some 30), Some "EmptyBuffer")]
  /\ forall entry : Command * option string,
       entry ∈ served (play (H := replay_core) [Serve 0%nat; Land 0%nat]
                         (move (H := replay_core) (Press SaveButton)
                            (play (H := replay_core) replay_on opened))) ->
       entry ∈ served (play (H := replay_core) replay_on opened)
       \/ (forall seconds : option Z,
             fst entry = save_replay_clip seconds ->
             snd entry <> Some "ReplayInactive").
Proof.
  assert (Hagree :
    replayActive (page (play (H := replay_core) replay_on opened)) =
      active (fst (backend (play (H := replay_core) replay_on opened))))
    by reflexivity.
  assert (Hquiet :
    toggle_served (H := replay_core) [Serve 0%nat; Land 0%nat]
      (move (H := replay_core) (Press SaveButton)
         (play (H := replay_core) replay_on opened)) = false)
    by reflexivity.
  split; [exact Hagree|]. split; [exact Hquiet|].
  split; [reflexivity|].
  exact (proj2 (proj2 (proj2 (proj2 (proj2 (proj2 (proj2
    (save_button_guard clip_file
       (play (H := replay_core) replay_on opened)
       [Serve 0%nat; Land 0%nat] Hagree Hquiet))))
    eq_refl)))).
Defined.

End TransitFacts.

(** ** What a stop, a start and a save resolve with *)

Module RecordingStateMachineFacts.
Import RecordingStore ReplayRingBuffer ReplayController.
Import RecordingStateMachine.

(** Three segments have been produced; the stop finalizes a file of three
    segments and returns its path. *)
Example stop_after_three_segments :
  stop numbered_file recording_three =
    (mkMachine Idle 6 [] (Some "recording-3.mkv")
       [(Starting, None); (Recording, None); (Stopping, None);
        (Idle, Some "recording-3.mkv")],
     Resolved "recording-3.mkv").
Proof. reflexivity. Qed.

(** While the session is recording, the segments completed are added to
    its list, in order, and nothing else changes. *)
Lemma records_spec (segs : list ReplaySegment) (m : Machine) :
  machine_status m = Recording ->
  records segs m =
    mkMachine Recording (elapsed m) (produced m ++ segs) (output_path m)
      (emitted m).
Proof.
  revert m. induction segs as [|seg segs IH]; intros m Hs.
  - destruct m as [s e p o n]. cbn in *. subst s.
    rewrite app_nil_r. reflexivity.
  - change (records (seg :: segs) m) with (records segs (record seg m)).
    unfold record. rewrite Hs. rewrite IH by reflexivity. cbn.
    rewrite <- app_assoc. reflexivity.
Qed.

Section FullCore.
Context (initialize : option string).
Context (finalize : list ReplaySegment -> Settled string).
Context (concatenate : list ReplaySegment -> string).
Context {O : Type} `{Backend O}.

(** C7. Against the core, a stop from Recording whose finalization
    succeeds makes [stopRecording] resolve with exactly the path of the
    finalized file, the file written from the segments produced since
    start, which is also the output path of the session from then on and
    the path the final notification carries; a stop that is not successful
    rejects and yields no path. A successful [startRecording] resolves
    with no value. So a session that is started from Idle, in which some
    segments are completed, and that is then stopped, resolves the start
    with no value and the stop with the path of the file written from
    exactly these segments. [saveReplayClip], when replay is on and the
    buffer not empty, resolves with the path of the clip file, the file
    written from the suffix of the buffer that covers the requested
    seconds (30 when none are given). *)
Theorem wrappers_resolve_with_paths
    (st : Store) (ctl : Controller) (m : Machine) (o : O)
    (seconds : option Z) :
  (forall path : string,
     machine_status m = Recording ->
     finalize (produced m) = Resolved path ->
     exec (H := core_backend concatenate
                    (H := machine_backend initialize finalize))
       stopRecording st (ctl, (m, o)) [] =
       (st,
        (ctl,
         (mkMachine Idle (elapsed m) [] (Some path)
            (emitted m ++ [(Stopping, None); (Idle, Some path)]), o)),
        [stop_recording], Resolved path))
  /\ (forall reason : string,
        machine_status m = Recording ->
        finalize (produced m) = Rejected reason ->
        outcome (exec (H := core_backend concatenate
                    (H := machine_backend initialize finalize))
       stopRecording st (ctl, (m, o)) []) =
          Rejected reason)
  /\ (machine_status m <> Recording ->
      exists reason : string,
        exec (H := core_backend concatenate
                    (H := machine_backend initialize finalize))
       stopRecording st (ctl, (m, o)) [] =
          (st, (ctl, (m, o)), [stop_recording], Rejected reason))
  /\ (machine_status m = Idle ->
      initialize = None ->
      exec (H := core_backend concatenate
                    (H := machine_backend initialize finalize))
       startRecording st (ctl, (m, o)) [] =
        (st,
         (ctl,
          (mkMachine Recording 0 [] None
             (emitted m ++ [(Starting, None); (Recording, None)]), o)),
         [start_recording], Resolved tt))
  /\ (forall (segs : list ReplaySegment) (path : string),
        machine_status m = Idle ->
        initialize = None ->
        finalize segs = Resolved path ->
        exists m1 : Machine,
          exec (H := core_backend concatenate
                       (H := machine_backend initialize finalize))
            startRecording st (ctl, (m, o)) [] =
            (st, (ctl, (m1, o)), [start_recording], Resolved tt)
          /\ exec (H := core_backend concatenate
                          (H := machine_backend initialize finalize))
               stopRecording st (ctl, (records segs m1, o)) [] =
               (st,
                (ctl,
                 (mkMachine Idle 0 [] (Some path)
                    (emitted m
                       ++ [(Starting, None); (Recording, None);
                           (Stopping, None); (Idle, Some path)]), o)),
                [stop_recording], Resolved path))
  /\ (forall buf : ReplayBuffer,
        active ctl = true ->
        buffer ctl = Some buf ->
        total_duration buf <> 0%N ->
        exec (H := core_backend concatenate
                    (H := machine_backend initialize finalize))
       (saveReplayClip seconds) st (ctl, (m, o)) [] =
          (st, (ctl, (m, o)), [save_replay_clip seconds],
           Resolved
             (concatenate
                (snapshot_suffix
                   (Z.to_N (default default_seconds seconds)) buf)))).
Proof.
  unfold stopRecording, startRecording, saveReplayClip, invoke, outcome.
  cbn. unfold stop, start.
  split; [|split; [|split; [|split; [|split]]]].
  - intros path Hs Hf. rewrite Hs, Hf. reflexivity.
  - intros reason Hs Hf. rewrite Hs, Hf. reflexivity.
  - intros Hs. destruct (machine_status m); try congruence; cbn;
      eexists; reflexivity.
  - intros Hs Hi. rewrite Hs, Hi. reflexivity.
  - intros segs path Hs Hi Hf. rewrite Hs, Hi. cbn.
    eexists. split; [reflexivity|].
    rewrite records_spec by reflexivity. cbn. rewrite Hf. cbn.
    rewrite <- app_assoc. reflexivity.
  - intros buf Ha Hb Hd. unfold saveClip. rewrite Ha, Hb. cbn.
    rewrite (proj2 (N.eqb_neq _ _) Hd). reflexivity.
Qed.

End FullCore.

End RecordingStateMachineFacts.

(** ** The recording store: mounting and events *)

Module StoreEventsFacts.
Import RecordingStore RecorderPage Session StoreEvents.

Lemma deliver_keeps_listeners (n : Notification) (st : Store) :
  listening (deliver n st) = listening st.
Proof.
  unfold deliver. case_bool_decide; [|reflexivity].
  destruct n; reflexivity.
Qed.

Lemma deliver_state (n : Notification) (st : Store) :
  "recording-state-changed" ∈ listening st ->
  state (deliver n st) = default (state st) (state_payload n).
Proof.
  intros Hl. unfold deliver. destruct n; cbn.
  - rewrite bool_decide_eq_true_2 by exact Hl. reflexivity.
  - case_bool_decide; reflexivity.
  - case_bool_decide; reflexivity.
Qed.

Lemma deliver_replay (n : Notification) (st : Store) :
  "replay-state-changed" ∈ listening st ->
  replayActive (deliver n st) = default (replayActive st) (replay_payload n).
Proof.
  intros Hl. unfold deliver. destruct n; cbn.
  - case_bool_decide; reflexivity.
  - case_bool_decide; reflexivity.
  - rewrite bool_decide_eq_true_2 by exact Hl. reflexivity.
Qed.

Lemma last_omap_cons {A C : Type} (f : A -> option C) (x : A) (l : list A)
    (d : C) :
  default d (last (omap f (x :: l))) =
  default (default d (f x)) (last (omap f l)).
Proof.
  cbn. destruct (f x) as [y|]; cbn; [|reflexivity].
  rewrite last_cons. destruct (last (omap f l)); reflexivity.
Qed.

Lemma delivers_state (ns : list Notification) (st : Store) :
  "recording-state-changed" ∈ listening st ->
  state (delivers ns st) = default (state st) (latest_state ns).
Proof.
  revert st. induction ns as [|n ns IH]; intros st Hl; [reflexivity|].
  change (delivers (n :: ns) st) with (delivers ns (deliver n st)).
  rewrite IH by (rewrite deliver_keeps_listeners; exact Hl).
  unfold latest_state. rewrite last_omap_cons, deliver_state by exact Hl.
  reflexivity.
Qed.

(** Without its listener no event writes the state, and none the replay
    flag. *)
Lemma delivers_state_unheard (ns : list Notification) (st : Store) :
  "recording-state-changed" ∉ listening st ->
  state (delivers ns st) = state st.
Proof.
  revert st. induction ns as [|n ns IH]; intros st Hl; [reflexivity|].
  change (delivers (n :: ns) st) with (delivers ns (deliver n st)).
  rewrite IH by (rewrite deliver_keeps_listeners; exact Hl).
  unfold deliver. case_bool_decide as Hin; [|reflexivity].
  destruct n; try reflexivity. contradiction.
Qed.

Lemma delivers_replay_unheard (ns : list Notification) (st : Store) :
  "replay-state-changed" ∉ listening st ->
  replayActive (delivers ns st) = replayActive st.
Proof.
  revert st. induction ns as [|n ns IH]; intros st Hl; [reflexivity|].
  change (delivers (n :: ns) st) with (delivers ns (deliver n st)).
  rewrite IH by (rewrite deliver_keeps_listeners; exact Hl).
  unfold deliver. case_bool_decide as Hin; [|reflexivity].
  destruct n; try reflexivity. contradiction.
Qed.

Lemma last_omap_app {A C : Type} (f : A -> option C) (l1 l2 : list A)
    (d : C) :
  default d (last (omap f (l1 ++ l2))) =
  default (default d (last (omap f l1))) (last (omap f l2)).
Proof.
  revert d. induction l1 as [|x l1 IH]; intros d; [reflexivity|].
  change ((x :: l1) ++ l2) with (x :: (l1 ++ l2)).
  rewrite !last_omap_cons. apply IH.
Qed.

Section MountRaces.
Context {B : Type} `{Backend B}.

(** X1. When [onMount] completes on the new store, whatever events were
    emitted while it ran: it has invoked the two status queries and the
    three [listen] calls in this order, each answered with a value; the
    three listeners are registered; the replay flag is the value the core
    answered; the state is the status the core answered unless a
    "recording-state-changed" event was emitted after its listener was
    registered (then it is the payload of the last such event), and the
    timer is 0 unless a "recording-timer" event was emitted after its
    listener was registered. Events emitted before that are lost. *)
Theorem onMount_loads_and_listens
    (gaps : list (list Notification)) (b b' : B) (st : Store)
    (log : list Command)
    (Hmount : mount gaps b = (st, b', Finished tt, log)) :
  exists (g0 g1 g2 g3 g4 : list Notification)
         (rest : list (list Notification)) (b1 b2 : B)
         (s : RecordingState) (r : bool),
    gaps = g0 :: g1 :: g2 :: g3 :: g4 :: rest
    /\ handle get_recording_status b = (b1, Resolved s)
    /\ handle get_replay_status b1 = (b2, Resolved r)
    /\ log = mount_commands
    /\ listening st = mount_events
    /\ replayActive st = r
    /\ state st = default s (latest_state (g3 ++ g4))
    /\ timer st = default 0 (latest_timer g4).
Proof.
  destruct (RecordingStoreFacts.mount_completed _ _ _ _ _ Hmount)
    as (g0 & g1 & g2 & g3 & g4 & rest & b1 & b2 & b3 & b4 & s & r
        & -> & E1 & E2 & _ & _ & _ & -> & ->).
  exists g0, g1, g2, g3, g4, rest, b1, b2, s, r.
  split; [reflexivity|]. split; [exact E1|]. split; [exact E2|].
  split; [reflexivity|].
  set (st3 := addListener "recording-state-changed"
                (setReplayActive r (setState s useRecording))).
  set (st4 := addListener "recording-timer" (delivers g3 st3)).
  assert (L3 : listening (delivers g3 st3) = ["recording-state-changed"]).
  { rewrite RecordingStoreFacts.delivers_listening. reflexivity. }
  assert (L4 : listening (delivers g4 st4) =
               ["recording-state-changed"; "recording-timer"]).
  { rewrite RecordingStoreFacts.delivers_listening. subst st4.
    cbn -[delivers]. rewrite L3. reflexivity. }
  assert (L4' : listening st4 =
                ["recording-state-changed"; "recording-timer"]).
  { subst st4. cbn -[delivers]. rewrite L3. reflexivity. }
  split; [cbn -[delivers]; rewrite L4; reflexivity|].
  split.
  { cbn -[delivers]. rewrite delivers_replay_unheard.
    - subst st4. cbn -[delivers]. rewrite delivers_replay_unheard.
      + reflexivity.
      + cbn. rewrite list_elem_of_singleton. discriminate.
    - rewrite L4'. intros Hin. apply list_elem_of_In in Hin. cbn in Hin.
      intuition discriminate. }
  split.
  { cbn -[delivers]. unfold latest_state. rewrite last_omap_app.
    rewrite delivers_state
      by (rewrite L4'; apply list_elem_of_In; cbn; auto).
    subst st4. cbn -[delivers].
    rewrite delivers_state
      by (apply list_elem_of_In; cbn; auto).
    reflexivity. }
  cbn -[delivers]. rewrite RecordingStoreFacts.delivers_timer
    by (rewrite L4'; apply list_elem_of_In; cbn; auto).
  subst st4. cbn -[delivers].
  rewrite RecordingStoreFacts.delivers_timer_unheard; [reflexivity|].
  cbn. rewrite list_elem_of_singleton. discriminate.
Qed.

(** X2. When [onMount] is rejected on the new store, whatever events were
    emitted while it ran: it stopped at the rejected call; the commands
    invoked are an initial part of the five, the rejected one last; the
    listeners registered are those whose [listen] call came before it, so
    the "replay-state-changed" listener at least is missing; the timer is
    still 0 unless the rejected call is the last one; and when the very
    first query is rejected nothing else is invoked and the store is as
    created. *)
Theorem onMount_stops_at_rejection
    (gaps : list (list Notification)) (b b' : B) (st : Store) (e : string)
    (log : list Command)
    (Hfail : mount gaps b = (st, b', Failed e, log)) :
  (exists m : nat,
     (1 <= m <= 5)%nat
     /\ log = take m mount_commands
     /\ listening st = take (m - 3) mount_events
     /\ ((m <= 4)%nat -> timer st = 0)
     /\ (m = 1%nat -> st = useRecording))
  /\ ("replay-state-changed" ∉ listening st)
  /\ (forall (b1 : B) (e1 : string) (g0 : list Notification)
             (rest : list (list Notification)),
        handle get_recording_status b = (b1, Rejected e1) ->
        mount (g0 :: rest) b =
          (useRecording, b1, Failed e1, [get_recording_status])).
Proof.
  assert (Hcases : exists m : nat,
     (1 <= m <= 5)%nat
     /\ log = take m mount_commands
     /\ listening st = take (m - 3) mount_events
     /\ ((m <= 4)%nat -> timer st = 0)
     /\ (m = 1%nat -> st = useRecording)).
  { revert Hfail.
    unfold mount, onMount, subscribe, getRecordingStatus, getReplayStatus,
      invoke.
    cbn -[delivers].
    destruct gaps as [|g0 gaps]; cbn -[delivers]; [discriminate|].
    rewrite (RecordingStoreFacts.delivers_unheard g0) by reflexivity.
    destruct (handle get_recording_status b) as [b1 [s|e1]];
      cbn -[delivers].
    2:{ destruct gaps; intros [= <- _ _ <-]; exists 1%nat;
          repeat split; lia. }
    destruct gaps as [|g1 gaps]; cbn -[delivers]; [discriminate|].
    rewrite (RecordingStoreFacts.delivers_unheard g1) by reflexivity.
    destruct (handle get_replay_status b1) as [b2 [r|e2]]; cbn -[delivers].
    2:{ destruct gaps; intros [= <- _ _ <-]; exists 2%nat;
          repeat split; lia. }
    destruct gaps as [|g2 gaps]; cbn -[delivers]; [discriminate|].
    rewrite (RecordingStoreFacts.delivers_unheard g2) by reflexivity.
    destruct (handle (listen "recording-state-changed") b2)
      as [b3 [[]|e3]]; cbn -[delivers].
    2:{ destruct gaps; intros [= <- _ _ <-]; exists 3%nat;
          repeat split; lia. }
    destruct gaps as [|g3 gaps]; cbn -[delivers]; [discriminate|].
    destruct (handle (listen "recording-timer") b3)
      as [b4 [[]|e4]]; cbn -[delivers].
    2:{ destruct gaps; intros [= <- _ _ <-]; exists 4%nat;
          (split; [lia|]); (split; [reflexivity|]);
          (split; [apply RecordingStoreFacts.delivers_listening|]);
          (split; [|lia]); intros _;
          (rewrite RecordingStoreFacts.delivers_timer_unheard;
             [reflexivity|]);
          cbn; rewrite list_elem_of_singleton; discriminate. }
    destruct gaps as [|g4 gaps]; cbn -[delivers]; [discriminate|].
    destruct (handle (listen "replay-state-changed") b4)
      as [b5 [[]|e5]]; cbn -[delivers].
    2:{ destruct gaps; intros [= <- _ _ <-]; exists 5%nat;
          (split; [lia|]); (split; [reflexivity|]);
          (split; [|split; lia]);
          rewrite RecordingStoreFacts.delivers_listening; cbn -[delivers];
          rewrite RecordingStoreFacts.delivers_listening; reflexivity. }
    destruct gaps; discriminate. }
  split; [exact Hcases|]. split.
  - destruct Hcases as (m & Hm & _ & Hl & _). rewrite Hl.
    assert (Hm' : m = 1%nat \/ m = 2%nat \/ m = 3%nat \/ m = 4%nat
                  \/ m = 5%nat) by lia.
    destruct Hm' as [->|[->|[->|[->| ->]]]]; cbn;
      intros Hin%list_elem_of_In; cbn in Hin; intuition discriminate.
  - intros b1 e1 g0 rest Hb.
    unfold mount, onMount, getRecordingStatus, invoke. cbn -[delivers].
    rewrite Hb. cbn -[delivers].
    rewrite (RecordingStoreFacts.delivers_unheard g0) by reflexivity.
    destruct rest; reflexivity.
Qed.

(** X3. Events emitted before the first [listen] call of [onMount] has
    resolved are lost: whatever is emitted while the mount waits for the
    status, for the replay flag or for the first [listen], the mount goes
    on exactly as if nothing had been emitted. A status change the core
    announces after it has answered the status query and before the
    listener is registered is therefore not shown. *)
Theorem events_before_listening_lost (b : B)
    (g0 g1 g2 : list Notification) (rest : list (list Notification)) :
  mount (g0 :: g1 :: g2 :: rest) b = mount ([] :: [] :: [] :: rest) b.
Proof.
  unfold mount, onMount, subscribe, getRecordingStatus, getReplayStatus,
    invoke.
  cbn -[delivers].
  rewrite (RecordingStoreFacts.delivers_unheard g0),
    (RecordingStoreFacts.delivers_unheard []) by reflexivity.
  destruct (handle get_recording_status b) as [b1 [s|e1]]; cbn -[delivers];
    [|reflexivity].
  rewrite (RecordingStoreFacts.delivers_unheard g1),
    (RecordingStoreFacts.delivers_unheard []) by reflexivity.
  destruct (handle get_replay_status b1) as [b2 [r|e2]]; cbn -[delivers];
    [|reflexivity].
  rewrite (RecordingStoreFacts.delivers_unheard g2),
    (RecordingStoreFacts.delivers_unheard []) by reflexivity.
  reflexivity.
Qed.

End MountRaces.

(** Mounting against a core that is recording with replay on, while the
    core announces that it is stopping: the announcement made before the
    state listener is registered is lost, the one made after it is shown. *)
Lemma onMount_loads_and_listens_witness :
  mount
    [[]; [recording_state_changed (mkRecordingState Stopping 7 None)]; [];
     [recording_state_changed (mkRecordingState Idle 8 (Some "a.mkv"))]; []]
    (mkCanned (mkRecordingState Recording 7 None) true) =
    (mkStore (mkRecordingState Idle 8 (Some "a.mkv")) 0 true mount_events,
     mkCanned (mkRecordingState Recording 7 None) true,
     Finished tt, mount_commands)
  /\ state (mkStore (mkRecordingState Idle 8 (Some "a.mkv")) 0 true
              mount_events) = mkRecordingState Idle 8 (Some "a.mkv").
Proof.
  assert (Hmount : mount
    [[]; [recording_state_changed (mkRecordingState Stopping 7 None)]; [];
     [recording_state_changed (mkRecordingState Idle 8 (Some "a.mkv"))]; []]
    (mkCanned (mkRecordingState Recording 7 None) true) =
    (mkStore (mkRecordingState Idle 8 (Some "a.mkv")) 0 true mount_events,
     mkCanned (mkRecordingState Recording 7 None) true,
     Finished tt, mount_commands)) by reflexivity.
  split; [exact Hmount|].
  destruct (onMount_loads_and_listens _ _ _ _ _ Hmount)
    as (g0 & g1 & g2 & g3 & g4 & rest & b1 & b2 & s & r
        & Hg & E1 & _ & _ & _ & _ & Hs & _).
  injection Hg as <- <- <- <- <- <-. injection E1 as <- <-. exact Hs.
Defined.

(** Mounting against a core that turns every request down. *)
Lemma onMount_stops_at_rejection_witness :
  mount [[recording_timer 3]] tt =
    (useRecording, tt, Failed "Unavailable", [get_recording_status])
  /\ "replay-state-changed" ∉ listening useRecording.
Proof.
  assert (Hfail : mount [[recording_timer 3]] tt =
    (useRecording, tt, Failed "Unavailable", [get_recording_status]))
    by reflexivity.
  split; [exact Hfail|].
  exact (proj1 (proj2 (onMount_stops_at_rejection _ _ _ _ _ _ Hfail))).
Defined.

(** X4. For a store that listens to the state and replay events, after any
    sequence of events the state is the payload of the most recent
    "recording-state-changed" event and the replay flag that of the most
    recent "replay-state-changed" event (each its former value when there
    was none); no event changes the listeners. *)
Theorem signals_follow_their_events (st : Store) (ns : list Notification)
    (Hs : "recording-state-changed" ∈ listening st)
    (Hr : "replay-state-changed" ∈ listening st) :
  state (delivers ns st) = default (state st) (latest_state ns)
  /\ replayActive (delivers ns st) =
       default (replayActive st) (latest_replay ns)
  /\ listening (delivers ns st) = listening st.
Proof.
  revert st Hs Hr. induction ns as [|n ns IH]; intros st Hs Hr.
  - repeat split.
  - change (delivers (n :: ns) st) with (delivers ns (deliver n st)).
    destruct (IH (deliver n st)) as (H1 & H2 & H3).
    { rewrite deliver_keeps_listeners. exact Hs. }
    { rewrite deliver_keeps_listeners. exact Hr. }
    rewrite H1, H2, H3. unfold latest_state, latest_replay.
    rewrite !last_omap_cons, deliver_state, deliver_replay by assumption.
    rewrite deliver_keeps_listeners. repeat split.
Qed.

(** A mounted store receives a stop, a timer tick and a replay change. *)
Lemma signals_follow_their_events_witness :
  "recording-state-changed" ∈ listening mounted
  /\ "replay-state-changed" ∈ listening mounted
  /\ state (delivers
             [recording_state_changed (mkRecordingState Stopping 9 None);
              recording_timer 9; replay_state_changed true] mounted) =
     mkRecordingState Stopping 9 None
  /\ replayActive (delivers
             [recording_state_changed (mkRecordingState Stopping 9 None);
              recording_timer 9; replay_state_changed true] mounted) = true.
Proof.
  assert (Hs : "recording-state-changed" ∈ listening mounted).
  { apply list_elem_of_In. cbn. auto. }
  assert (Hr : "replay-state-changed" ∈ listening mounted).
  { apply list_elem_of_In. cbn. auto. }
  split; [exact Hs|]. split; [exact Hr|].
  pose proof (signals_follow_their_events mounted
    [recording_state_changed (mkRecordingState Stopping 9 None);
     recording_timer 9; replay_state_changed true] Hs Hr) as (H1 & H2 & _).
  split; [exact H1|exact H2].
Defined.

End StoreEventsFacts.

(** ** The Recorder page: what the buttons dispatch *)

Module RecorderControlsFacts.
Import RecordingStore RecorderPage Session StoreEvents.

(** X5. The record button is enabled exactly when a click does something:
    a click on it suspends on [stop_recording] when the page shows
    Recording, on [start_recording] when it shows Idle, and dispatches
    nothing when the button is disabled; the page is in exactly one of the
    three conditions idle, recording and busy, and the button is disabled
    exactly in the last. *)
Theorem record_button_acts_iff_enabled (st : Store) :
  awaited (snd (click RecordButton st)) =
    (if disabled RecordButton st then None
     else Some (if isRecording st then stop_recording else start_recording))
  /\ (Nat.b2n (isIdle st) + Nat.b2n (isRecording st) + Nat.b2n (isBusy st)
      = 1)%nat
  /\ disabled RecordButton st = negb (isIdle st || isRecording st)
  /\ (disabled RecordButton st = false <->
      awaited (snd (click RecordButton st)) <> None).
Proof.
  unfold click, disabled, isBusy, isIdle, isRecording, onClick, toggleRecord.
  destruct (status (state st)) eqn:E; cbn; rewrite ?E; cbn; rewrite ?E; cbn;
    repeat split; try reflexivity; try discriminate; try congruence.
  all: intros Hn; exfalso; apply Hn; reflexivity.
Qed.

Section ControlsBackend.
Context {B : Type} `{Backend B}.

Lemma click_keeps_store (b : Control) (st : Store) :
  fst (click b st) = st.
Proof.
  unfold click. destruct (disabled b st); [reflexivity|].
  destruct b; cbn.
  - unfold toggleRecord. cbn.
    destruct (status (state st)) eqn:E; cbn; rewrite ?E; reflexivity.
  - reflexivity.
  - reflexivity.
Qed.

Lemma dispatch_ui (sys : System B) (st : Store)
    (p : Paused Store unit) :
  ui (dispatch sys st p) = st.
Proof.
  unfold dispatch. destruct p as [a|e|c k]; try reflexivity.
  destruct (handle c (core sys)); reflexivity.
Qed.

(** X6. No click writes a signal: the store after the click's handler has
    run to its [await] is the store before, for each of the three buttons
    and whether the button is enabled or not; the signals change only when
    an answer or an event arrives. *)
Theorem clicks_never_write_store (b : Control) (sys : System B) :
  fst (click b (ui sys)) = ui sys
  /\ ui (step (Click b) sys) = ui sys
  /\ (forall es : list Control,
        ui (run (Click <$> es) sys) = ui sys).
Proof.
  assert (Hstep : forall (c : Control) (s : System B),
            ui (step (Click c) s) = ui s).
  { intros c s. unfold step.
    pose proof (click_keeps_store c (ui s)) as Hc.
    destruct (click c (ui s)) as [st p]. cbn in Hc. subst st.
    apply dispatch_ui. }
  split; [apply click_keeps_store|]. split; [apply Hstep|].
  intros es. revert sys. induction es as [|c es IH]; intros sys.
  - reflexivity.
  - change (run (Click <$> c :: es) sys)
      with (run (Click <$> es) (step (Click c) sys)).
    rewrite IH. apply Hstep.
Qed.

Lemma click_record_idle (sys : System B) :
  status (state (ui sys)) = Idle ->
  step (Click RecordButton) sys =
    mkSystem (ui sys) (fst (handle start_recording (core sys)))
      (inflight sys
         ++ [mkInflight start_recording
               (snd (handle start_recording (core sys))) Return])
      (answered sys
         ++ [(start_recording,
              failure (snd (handle start_recording (core sys))))]).
Proof.
  intros Hs. unfold step, click, disabled, isBusy, onClick, toggleRecord.
  cbn. rewrite Hs. cbn. rewrite Hs. cbn. unfold dispatch.
  destruct (handle start_recording (core sys)) as [b r]. reflexivity.
Qed.

(** X7. The store does not remember that a start is under way: while the
    status it holds is Idle, every further click on the record button
    invokes [start_recording] again, so n clicks invoke it n times and
    leave n calls waiting for their answers. *)
Theorem repeated_clicks_start_repeatedly (sys : System B) (n : nat)
    (Hidle : status (state (ui sys)) = Idle) :
  fst <$> answered (run (replicate n (Click RecordButton)) sys) =
    (fst <$> answered sys) ++ replicate n start_recording
  /\ length (inflight (run (replicate n (Click RecordButton)) sys)) =
       (length (inflight sys) + n)%nat
  /\ ui (run (replicate n (Click RecordButton)) sys) = ui sys.
Proof.
  revert sys Hidle. induction n as [|n IH]; intros sys Hidle.
  - cbn. rewrite app_nil_r. repeat split. lia.
  - change (run (replicate (S n) (Click RecordButton)) sys)
      with (run (replicate n (Click RecordButton))
              (step (Click RecordButton) sys)).
    rewrite click_record_idle by exact Hidle.
    match goal with |- context [run _ ?s] => destruct (IH s) as (H1 & H2 & H3)
    end; [exact Hidle|].
    rewrite H1, H2, H3. cbn. rewrite fmap_app, length_app. cbn.
    rewrite <- app_assoc. cbn. repeat split. lia.
Qed.

(** X8. With two toggles under way the replay flag ends at the answer that
    arrives last: when the answers arrive in the order of the calls it is
    the second answer, when they arrive the other way round it is the
    first, whatever the core holds by then. *)
Theorem overlapping_toggles_last_answer_wins (sys : System B) (b1 b2 : B)
    (v1 v2 : bool)
    (Hempty : inflight sys = [])
    (H1 : handle toggle_replay_buffer (core sys) = (b1, Resolved v1))
    (H2 : handle toggle_replay_buffer b1 = (b2, Resolved v2)) :
  replayActive
    (ui (run [Click ReplayToggle; Click ReplayToggle;
              Arrive 0%nat; Arrive 0%nat] sys)) = v2
  /\ replayActive
       (ui (run [Click ReplayToggle; Click ReplayToggle;
                 Arrive 1%nat; Arrive 0%nat] sys)) = v1
  /\ core (run [Click ReplayToggle; Click ReplayToggle;
                Arrive 1%nat; Arrive 0%nat] sys) = b2
  /\ inflight (run [Click ReplayToggle; Click ReplayToggle;
                    Arrive 1%nat; Arrive 0%nat] sys) = [].
Proof.
  destruct sys as [u c inf ans]. cbn in Hempty, H1, H2. subst inf.
  unfold run, step, click, disabled, onClick, toggleReplay, dispatch.
  cbn. rewrite H1. cbn. rewrite H2. cbn.
  repeat split.
Qed.

End ControlsBackend.

(** Three clicks on the record button of an idle page. *)
Lemma repeated_clicks_start_repeatedly_witness :
  status (state (ui (mkSystem useRecording
                       (mkCanned (mkRecordingState Idle 0 None) false)
                       [] []))) = Idle
  /\ fst <$> answered
               (run (replicate 3 (Click RecordButton))
                  (mkSystem useRecording
                     (mkCanned (mkRecordingState Idle 0 None) false)
                     [] [])) =
     [start_recording; start_recording; start_recording].
Proof.
  assert (Hidle : status (state (ui (mkSystem useRecording
                       (mkCanned (mkRecordingState Idle 0 None) false)
                       [] []))) = Idle) by reflexivity.
  split; [exact Hidle|].
  exact (proj1 (repeated_clicks_start_repeatedly
                  (mkSystem useRecording
                     (mkCanned (mkRecordingState Idle 0 None) false) [] [])
                  3 Hidle)).
Defined.

(** Replay is switched on and off again before either answer arrives, and
    the answers arrive in reverse: the page shows replay on, the core has it
    off. *)
Lemma overlapping_toggles_last_answer_wins_witness :
  inflight (mkSystem useRecording
              (mkCanned (mkRecordingState Idle 0 None) false) [] []) = []
  /\ replayActive
       (ui (run [Click ReplayToggle; Click ReplayToggle;
                 Arrive 1%nat; Arrive 0%nat]
              (mkSystem useRecording
                 (mkCanned (mkRecordingState Idle 0 None) false) [] [])))
     = true
  /\ canned_replay
       (core (run [Click ReplayToggle; Click ReplayToggle;
                   Arrive 1%nat; Arrive 0%nat]
                (mkSystem useRecording
                   (mkCanned (mkRecordingState Idle 0 None) false) [] [])))
     = false.
Proof.
  split; [reflexivity|].
  pose proof (overlapping_toggles_last_answer_wins
    (mkSystem useRecording
       (mkCanned (mkRecordingState Idle 0 None) false) [] [])
    (mkCanned (mkRecordingState Idle 0 None) true)
    (mkCanned (mkRecordingState Idle 0 None) false)
    true false eq_refl eq_refl eq_refl) as (_ & Hflag & Hcore & _).
  split; [exact Hflag|]. rewrite Hcore. reflexivity.
Defined.

End RecorderControlsFacts.

(** ** The Recorder page: more on the rendered time *)

Module FormatTimeShapeFacts.
Import RecordingStore RecorderPage FormatTimeFacts.
Local Arguments String.append !s1 s2 : simpl nomatch.

Lemma length_append (a b : string) :
  String.length (a +:+ b) = (String.length a + String.length b)%nat.
Proof. induction a as [|c a IH]; cbn; [reflexivity|]. rewrite IH. reflexivity. Qed.

Lemma recombine_formatTime (n : Z) :
  0 <= n < 2 ^ 53 -> formatTime n ≫= recombine = Some n.
Proof.
  intros Hn. destruct (fields_recombine n (proj1 Hn)) as (Hh & Hm & Hs & Hsum).
  rewrite formatTime_nonneg by exact Hn. cbn [mbind option_bind].
  unfold recombine.
  destruct (0 <? n / 3600) eqn:E.
  - rewrite !split_colon_field by (apply colon_free_pad; lia).
    rewrite split_colon_last by (apply colon_free_pad; lia).
    rewrite !readField_pad by lia. cbn. f_equal. exact Hsum.
  - rewrite split_colon_field by (apply colon_free_pad; lia).
    rewrite split_colon_last by (apply colon_free_pad; lia).
    rewrite !readField_pad by lia. cbn. f_equal.
    apply Z.ltb_ge in E. lia.
Qed.

(** X9. Two different whole numbers of seconds from 0 up to, not including,
    2^53 are never rendered as the same text. *)
Theorem formatTime_injective (a b : Z) (Ha : 0 <= a < 2 ^ 53)
    (Hb : 0 <= b < 2 ^ 53) (Hne : a <> b) :
  formatTime a <> formatTime b.
Proof.
  intros Heq. apply Hne.
  pose proof (recombine_formatTime a Ha) as Hra.
  pose proof (recombine_formatTime b Hb) as Hrb.
  rewrite Heq, Hrb in Hra. congruence.
Qed.

(** The last second of the first hour and the first of the second. *)
Lemma formatTime_injective_witness :
  0 <= 3599 < 2 ^ 53 /\ 0 <= 3600 < 2 ^ 53 /\ 3599 <> 3600
  /\ formatTime 3599 <> formatTime 3600.
Proof.
  assert (Ha : 0 <= 3599 < 2 ^ 53) by (split; [lia|reflexivity]).
  assert (Hb : 0 <= 3600 < 2 ^ 53) by (split; [lia|reflexivity]).
  assert (Hne : 3599 <> 3600) by lia.
  split; [exact Ha|]. split; [exact Hb|]. split; [exact Hne|].
  exact (formatTime_injective 3599 3600 Ha Hb Hne).
Defined.

Lemma pad_below_100 (k : Z) :
  0 <= k < 100 -> String.length (pad k) = 2%nat.
Proof.
  intros Hk.
  assert (Hall : forall n : nat,
            (n < 100)%nat -> String.length (pad (Z.of_nat n)) = 2%nat).
  { intros n Hn. do 100 (destruct n as [|n]; [reflexivity|]). lia. }
  rewrite <- (Z2Nat.id k) by lia. apply Hall. lia.
Qed.

(** A field of two characters reads as a number below 100. *)
Lemma readField_two_chars (f : string) (k : Z) :
  String.length f = 2%nat -> readField f = Some k -> k < 100.
Proof.
  destruct f as [|c1 [|c2 [|c3 f]]]; try discriminate. intros _.
  unfold readField, NilZero.int_of_string, NilZero.uint_of_string.
  destruct (Ascii.eqb c1 "-").
  - cbn -[uint_of_char].
    destruct (uint_of_char c2 (Some Decimal.Nil)) as [d|] eqn:E2;
      [|discriminate].
    apply uint_of_char_spec in E2.
    cbn. intros [= <-].
    repeat (destruct E2 as [[_ ->]|E2]; [cbn; lia|]).
    destruct E2 as [_ ->]. cbn. lia.
  - cbn -[uint_of_char].
    destruct (uint_of_char c2 (Some Decimal.Nil)) as [d|] eqn:E2;
      [|discriminate].
    apply uint_of_char_spec in E2.
    destruct (uint_of_char c1 (Some d)) as [d'|] eqn:E1; [|discriminate].
    apply uint_of_char_spec in E1.
    cbn. intros [= <-].
    repeat (destruct E2 as [[_ ->]|E2];
      [repeat (destruct E1 as [[_ ->]|E1]; [cbn; lia|]);
       destruct E1 as [_ ->]; cbn; lia|]).
    destruct E2 as [_ ->].
    repeat (destruct E1 as [[_ ->]|E1]; [cbn; lia|]).
    destruct E1 as [_ ->]. cbn. lia.
Qed.

(** X10. For a whole number of seconds from 0 up to, not including, 2^53,
    the rendered time has five characters below one hour, eight from one
    hour up to a hundred, and more from a hundred hours on: the hours field
    widens, it is never cut. *)
Theorem formatTime_length (n : Z) (Hn : 0 <= n < 2 ^ 53) :
  (n < 3600 -> String.length <$> formatTime n = Some 5%nat)
  /\ (3600 <= n < 360000 -> String.length <$> formatTime n = Some 8%nat)
  /\ (360000 <= n ->
      exists len : nat,
        String.length <$> formatTime n = Some len /\ (9 <= len)%nat).
Proof.
  destruct (fields_recombine n (proj1 Hn)) as (Hh & Hm & Hs & Hsum).
  rewrite formatTime_nonneg by exact Hn. cbn [fmap option_fmap option_map].
  pose proof (pad_two_digits _ Hm) as Lm.
  pose proof (pad_two_digits _ Hs) as Ls.
  split; [|split]; intros Hr.
  - assert (E : n / 3600 = 0) by (apply Z.div_small; lia).
    rewrite E. cbn [Z.ltb Z.compare].
    rewrite !length_append, Lm, Ls. reflexivity.
  - assert (1 <= n / 3600 < 100).
    { split; [apply Z.div_le_lower_bound; lia
             |apply Z.div_lt_upper_bound; lia]. }
    rewrite (proj2 (Z.ltb_lt 0 (n / 3600))) by lia.
    rewrite !length_append, Lm, Ls, pad_below_100 by lia. reflexivity.
  - assert (100 <= n / 3600) by (apply Z.div_le_lower_bound; lia).
    rewrite (proj2 (Z.ltb_lt 0 (n / 3600))) by lia.
    eexists. split; [reflexivity|].
    rewrite !length_append, Lm, Ls. cbn.
    assert (String.length (pad (n / 3600)) <> 2%nat).
    { intros L2.
      pose proof (readField_two_chars _ _ L2 (readField_pad _ Hh)). lia. }
    assert (2 <= String.length (pad (n / 3600)))%nat.
    { unfold pad. rewrite padStart_length. lia. }
    lia.
Qed.

(** Ninety seconds. *)
Lemma formatTime_length_witness :
  0 <= 90 < 2 ^ 53 /\ String.length <$> formatTime 90 = Some 5%nat.
Proof.
  assert (Hn : 0 <= 90 < 2 ^ 53) by (split; [lia|reflexivity]).
  split; [exact Hn|].
  exact (proj1 (formatTime_length 90 Hn) ltac:(lia)).
Defined.

End FormatTimeShapeFacts.

(** ** The Library page: durations and sizes *)

Module LibraryFormatFacts.
Import RecorderPage LibraryFormat FormatTimeFacts.
Local Arguments String.append !s1 s2 : simpl nomatch.

Example formatDuration_3600 : formatDuration 3600 = Some "60:00".
Proof. reflexivity. Qed.

Example formatSize_examples :
  formatSize 1536 = Some "2 KB"
  /\ formatSize 1048575 = Some "1024 KB"
  /\ formatSize 1048576 = Some "1.0 MB"
  /\ formatSize 1610612736 = Some "1.50 GB".
Proof. repeat split. Qed.

Lemma append_assoc (a b c : string) : (a +:+ b) +:+ c = a +:+ (b +:+ c).
Proof.
  induction a as [|x a IH]; cbn; [reflexivity|]. rewrite IH. reflexivity.
Qed.

Lemma string_revapp (d acc : Decimal.uint) :
  NilEmpty.string_of_uint (Decimal.revapp d acc) =
  NilEmpty.string_of_uint (Decimal.rev d) +:+ NilEmpty.string_of_uint acc.
Proof.
  revert acc. unfold Decimal.rev.
  induction d as [|d IH|d IH|d IH|d IH|d IH|d IH|d IH|d IH|d IH|d IH];
    intros acc; [reflexivity|..]; cbn [Decimal.revapp];
    rewrite IH, (IH (_ Decimal.Nil)), append_assoc; reflexivity.
Qed.

(** The decimal digits of 10 q + r are those of q followed by the digit
    r. *)
Lemma digits_tenfold_plus (q : positive) (r : N) :
  (r < 10)%N ->
  NilEmpty.string_of_uint
    (Decimal.rev (Unsigned.to_lu (10 * Npos q + r))) =
  NilEmpty.string_of_uint (Decimal.rev (Unsigned.to_lu (Npos q)))
    +:+ NilEmpty.string_of_uint (N.to_uint r).
Proof.
  intros Hr.
  assert (Hcases : (r = 0 \/ r = 1 \/ r = 2 \/ r = 3 \/ r = 4 \/ r = 5
                    \/ r = 6 \/ r = 7 \/ r = 8 \/ r = 9)%N) by lia.
  destruct Hcases as [->|[->|[->|[->|[->|[->|[->|[->|[->| ->]]]]]]]]].
  1: replace (10 * N.pos q + 0)%N
       with (10 * N.pos q)%N by lia.
  2: replace (10 * N.pos q + 1)%N
       with (N.succ (10 * N.pos q)%N) by lia.
  3: replace (10 * N.pos q + 2)%N
       with (N.succ (N.succ (10 * N.pos q)%N)) by lia.
  4: replace (10 * N.pos q + 3)%N
       with (N.succ (N.succ (N.succ (10 * N.pos q)%N))) by lia.
  5: replace (10 * N.pos q + 4)%N
       with (N.succ (N.succ (N.succ (N.succ (10 * N.pos q)%N)))) by lia.
  6: replace (10 * N.pos q + 5)%N
       with (N.succ (N.succ (N.succ (N.succ (N.succ (10 * N.pos q)%N))))) by lia.
  7: replace (10 * N.pos q + 6)%N
       with (N.succ (N.succ (N.succ (N.succ (N.succ (N.succ (10 * N.pos q)%N)))))) by lia.
  8: replace (10 * N.pos q + 7)%N
       with (N.succ (N.succ (N.succ (N.succ (N.succ (N.succ (N.succ (10 * N.pos q)%N))))))) by lia.
  9: replace (10 * N.pos q + 8)%N
       with (N.succ (N.succ (N.succ (N.succ (N.succ (N.succ (N.succ (N.succ (10 * N.pos q)%N)))))))) by lia.
  10: replace (10 * N.pos q + 9)%N
       with (N.succ (N.succ (N.succ (N.succ (N.succ (N.succ (N.succ (N.succ (N.succ (10 * N.pos q)%N))))))))) by lia.
  all: rewrite ?Unsigned.to_lu_succ, Unsigned.to_ldec_tenfold;
    cbn [Decimal.Little.succ]; unfold Decimal.rev at 1;
    cbn [Decimal.revapp]; rewrite string_revapp; reflexivity.
Qed.

Lemma toString_pos (p : positive) :
  toString (Zpos p) =
  NilEmpty.string_of_uint (Decimal.rev (Unsigned.to_lu (Npos p))).
Proof.
  unfold toString.
  change (Z.to_int (Zpos p)) with (Decimal.Pos (Pos.to_uint p)).
  change (Decimal.rev (Unsigned.to_lu (Npos p))) with (Pos.to_uint p).
  unfold NilZero.string_of_int, NilZero.string_of_uint.
  destruct (Pos.to_uint p) eqn:E; try reflexivity.
  exfalso. exact (Unsigned.to_uint_nonnil p E).
Qed.

Lemma toString_digit (r : Z) :
  0 <= r < 10 ->
  toString r = NilEmpty.string_of_uint (N.to_uint (Z.to_N r)).
Proof.
  intros Hr.
  assert (Hcases : r = 0 \/ r = 1 \/ r = 2 \/ r = 3 \/ r = 4 \/ r = 5
                   \/ r = 6 \/ r = 7 \/ r = 8 \/ r = 9) by lia.
  repeat (destruct Hcases as [->|Hcases]); try subst r; reflexivity.
Qed.

(** The digits of a number from 10 on are the digits of its tenth followed
    by its last digit. *)
Lemma toString_digits (n : Z) :
  10 <= n -> toString n = toString (n / 10) +:+ toString (n mod 10).
Proof.
  intros Hn.
  pose proof (Z.div_mod n 10 ltac:(lia)) as Hdm.
  pose proof (Z.mod_pos_bound n 10 ltac:(lia)) as Hr.
  assert (Hq : 1 <= n / 10) by (apply Z.div_le_lower_bound; lia).
  destruct (n / 10) as [|q|q] eqn:Eq; try lia.
  destruct n as [|p|p]; try lia.
  rewrite !toString_pos, (toString_digit _ Hr).
  replace (Npos p) with (10 * Npos q + Z.to_N (Zpos p mod 10))%N by lia.
  apply digits_tenfold_plus. lia.
Qed.

Lemma colon_free_toString (k : Z) : 0 <= k -> colon_free (toString k) = true.
Proof.
  intros Hk. destruct (toString_nonneg k Hk) as (d & _ & _ & ->).
  apply colon_free_uint.
Qed.

Lemma readField_toString (k : Z) : 0 <= k -> readField (toString k) = Some k.
Proof.
  intros Hk. destruct (toString_nonneg k Hk) as (d & Hd & Hi & _).
  unfold readField, toString. rewrite NilZero.isi.
  - cbn. f_equal. apply DecimalZ.of_to.
  - rewrite Hi. congruence.
  - rewrite Hi. discriminate.
Qed.

Lemma formatDuration_spec_nonneg (n : Z) :
  0 <= n ->
  formatDuration_spec n = toString (n / 60) +:+ ":" +:+ pad (n mod 60).
Proof.
  intros Hn. unfold formatDuration_spec, pad.
  rewrite Z.rem_mod_nonneg by lia. reflexivity.
Qed.

(** Below 2^53 the minutes the code computes are the whole quotient. *)
Lemma formatDuration_exact (n : Z) :
  0 <= n < 2 ^ 53 -> formatDuration n = Some (formatDuration_spec n).
Proof.
  intros Hn. unfold formatDuration, formatDuration_spec, is_double.
  rewrite Z.abs_eq by lia.
  rewrite (proj2 (Z.ltb_lt n (2 ^ 53))) by lia. cbn [orb]. cbv zeta.
  rewrite floor_div_exact by lia.
  assert (0 <= n / 60) by (apply Z.div_pos; lia).
  assert (n / 60 < 2 ^ 53) by (apply Z.div_lt_upper_bound; lia).
  rewrite Z.abs_eq by lia.
  rewrite (proj2 (Z.ltb_lt (n / 60) (2 ^ 53))) by lia. reflexivity.
Qed.

Lemma formatDuration_nonneg (n : Z) :
  0 <= n < 2 ^ 53 ->
  formatDuration n = Some (toString (n / 60) +:+ ":" +:+ pad (n mod 60)).
Proof.
  intros Hn. rewrite formatDuration_exact by exact Hn.
  rewrite formatDuration_spec_nonneg by lia. reflexivity.
Qed.

Lemma recombine_duration_text (n : Z) :
  0 <= n ->
  recombine (toString (n / 60) +:+ ":" +:+ pad (n mod 60)) = Some n.
Proof.
  intros Hn.
  pose proof (Z.div_mod n 60 ltac:(lia)) as Hdm.
  pose proof (Z.mod_pos_bound n 60 ltac:(lia)) as Hr.
  assert (Hq : 0 <= n / 60) by (apply Z.div_pos; lia).
  unfold recombine.
  rewrite split_colon_field by (apply colon_free_toString, Hq).
  rewrite split_colon_last by (apply colon_free_pad; lia).
  rewrite readField_toString, readField_pad by lia.
  cbn. f_equal. lia.
Qed.

Lemma recombine_formatDuration (n : Z) :
  0 <= n < 2 ^ 53 -> formatDuration n ≫= recombine = Some n.
Proof.
  intros Hn. rewrite formatDuration_nonneg by exact Hn.
  cbn [mbind option_bind]. apply recombine_duration_text. lia.
Qed.

(** X11. A duration of n whole seconds, n from 0 up to, not including,
    2^53, is shown as the minutes floor(n / 60), written without padding
    and not broken into hours, a colon, and the seconds n mod 60 in two
    digits; the text reads back to n, so different durations are shown
    differently. *)
Theorem formatDuration_reads_back (n : Z) (Hn : 0 <= n < 2 ^ 53) :
  let text := toString (n / 60) +:+ ":" +:+ pad (n mod 60) in
  formatDuration n = Some text
  /\ String.length (pad (n mod 60)) = 2%nat
  /\ split_colon text = [toString (n / 60); pad (n mod 60)]
  /\ recombine text = Some n
  /\ (forall m : Z,
        0 <= m < 2 ^ 53 -> formatDuration m = formatDuration n -> m = n).
Proof.
  intros text.
  pose proof (Z.mod_pos_bound n 60 ltac:(lia)) as Hr.
  assert (Hq : 0 <= n / 60) by (apply Z.div_pos; lia).
  split; [apply formatDuration_nonneg, Hn|].
  split; [apply pad_two_digits, Hr|].
  split.
  { subst text.
    rewrite split_colon_field by (apply colon_free_toString, Hq).
    rewrite split_colon_last by (apply colon_free_pad; lia). reflexivity. }
  split; [apply recombine_duration_text; lia|].
  intros m Hm Heq.
  pose proof (recombine_formatDuration m Hm) as Hrm.
  rewrite Heq, recombine_formatDuration in Hrm by exact Hn. congruence.
Qed.

(** Two hours and five seconds. *)
Lemma formatDuration_reads_back_witness :
  0 <= 7205 < 2 ^ 53
  /\ formatDuration 7205 = Some "120:05"
  /\ recombine "120:05" = Some 7205.
Proof.
  assert (Hn : 0 <= 7205 < 2 ^ 53) by (split; [lia|reflexivity]).
  split; [exact Hn|].
  pose proof (formatDuration_reads_back 7205 Hn) as (H1 & _ & _ & H4 & _).
  split; [exact H1|exact H4].
Defined.

Lemma length_app (a b : string) :
  String.length (a +:+ b) = (String.length a + String.length b)%nat.
Proof.
  induction a as [|c a IH]; cbn; [reflexivity|]. rewrite IH. reflexivity.
Qed.

Lemma substring_all (b : string) :
  String.substring 0 (String.length b) b = b.
Proof. induction b as [|c b IH]; cbn; [reflexivity|]. rewrite IH. reflexivity. Qed.

Lemma substring_front (a b : string) :
  String.substring 0 (String.length a) (a +:+ b) = a.
Proof.
  induction a as [|c a IH]; cbn.
  - destruct b; reflexivity.
  - rewrite IH. reflexivity.
Qed.

Lemma substring_back (a b : string) :
  String.substring (String.length a) (String.length b) (a +:+ b) = b.
Proof.
  induction a as [|c a IH]; cbn; [apply substring_all|]. exact IH.
Qed.

Lemma toString_nonempty (k : Z) :
  0 <= k -> (1 <= String.length (toString k))%nat.
Proof.
  intros Hk. destruct (toString_nonneg k Hk) as (d & Hd & _ & ->).
  destruct d; cbn; try lia. congruence.
Qed.

Lemma toString_one_digit (r : Z) :
  0 <= r < 10 -> String.length (toString r) = 1%nat.
Proof.
  intros Hr.
  assert (Hcases : r = 0 \/ r = 1 \/ r = 2 \/ r = 3 \/ r = 4 \/ r = 5
                   \/ r = 6 \/ r = 7 \/ r = 8 \/ r = 9) by lia.
  repeat (destruct Hcases as [->|Hcases]); try subst r; reflexivity.
Qed.

(** With one decimal: the tenths in front of the point, the last digit
    behind it. *)
Lemma place_point_1 (n : Z) :
  10 <= n ->
  place_point (toString n) 1 =
    toString (n / 10) +:+ "." +:+ toString (n mod 10).
Proof.
  intros Hn.
  pose proof (Z.mod_pos_bound n 10 ltac:(lia)) as Hr.
  assert (Hq : 0 <= n / 10) by (apply Z.div_pos; lia).
  pose proof (toString_nonempty _ Hq) as La.
  pose proof (toString_one_digit _ Hr) as Lb.
  unfold place_point. cbn [Nat.eqb]. cbv zeta.
  rewrite (toString_digits n Hn), length_app, Lb.
  rewrite (proj2 (Nat.leb_gt _ _)) by lia.
  rewrite length_app, Lb.
  replace (String.length (toString (n / 10)) + 1 - 1)%nat
    with (String.length (toString (n / 10))) by lia.
  rewrite substring_front. rewrite <- Lb at 1. rewrite substring_back.
  reflexivity.
Qed.

Lemma pad_digits (r : Z) :
  0 <= r < 100 -> pad r = toString (r / 10) +:+ toString (r mod 10).
Proof.
  intros Hr.
  assert (Hall : forall k : nat, (k < 100)%nat ->
            pad (Z.of_nat k) =
              toString (Z.of_nat k / 10) +:+ toString (Z.of_nat k mod 10)).
  { intros k Hk. do 100 (destruct k as [|k]; [reflexivity|]). lia. }
  rewrite <- (Z2Nat.id r) by lia. apply Hall. lia.
Qed.

Lemma pad_below_100_chars (k : Z) :
  0 <= k < 100 -> String.length (pad k) = 2%nat.
Proof.
  intros Hk.
  assert (Hall : forall n : nat,
            (n < 100)%nat -> String.length (pad (Z.of_nat n)) = 2%nat).
  { intros n Hn. do 100 (destruct n as [|n]; [reflexivity|]). lia. }
  rewrite <- (Z2Nat.id k) by lia. apply Hall. lia.
Qed.

(** With two decimals: the hundredths in front of the point, the last two
    digits behind it. *)
Lemma place_point_2 (n : Z) :
  100 <= n ->
  place_point (toString n) 2 =
    toString (n / 100) +:+ "." +:+ pad (n mod 100).
Proof.
  intros Hn.
  pose proof (Z.mod_pos_bound n 100 ltac:(lia)) as Hr.
  assert (Hq : 0 <= n / 100) by (apply Z.div_pos; lia).
  assert (Hq10 : 10 <= n / 10) by (apply Z.div_le_lower_bound; lia).
  pose proof (toString_nonempty _ Hq) as La.
  pose proof (pad_below_100_chars (n mod 100) Hr) as Lb.
  assert (Hd : toString n = toString (n / 100) +:+ pad (n mod 100)).
  { rewrite (toString_digits n) by lia.
    rewrite (toString_digits (n / 10)) by lia.
    rewrite pad_digits by lia. rewrite append_assoc.
    rewrite Z.div_div by lia.
    pose proof (Z.div_mod n 100 ltac:(lia)) as H100.
    pose proof (Z.div_mod (n mod 100) 10 ltac:(lia)) as Hr10.
    pose proof (Z.mod_pos_bound (n mod 100) 10 ltac:(lia)) as Hc.
    assert (Hb : 0 <= n mod 100 / 10 < 10).
    { split; [apply Z.div_pos; lia|apply Z.div_lt_upper_bound; lia]. }
    assert (Hn10 : n / 10 = 10 * (n / 100) + n mod 100 / 10).
    { symmetry. apply (Z.div_unique_pos n 10 _ (n mod 100 mod 10)); lia. }
    assert (Hm10 : n mod 10 = n mod 100 mod 10).
    { symmetry.
      apply (Z.mod_unique_pos n 10 (10 * (n / 100) + n mod 100 / 10)); lia. }
    assert (Hd10 : n / 10 mod 10 = n mod 100 / 10).
    { symmetry. apply (Z.mod_unique_pos (n / 10) 10 (n / 100)); lia. }
    rewrite Hd10, <- Hm10.
    reflexivity. }
  unfold place_point. cbn [Nat.eqb]. cbv zeta.
  rewrite Hd, length_app, Lb.
  rewrite (proj2 (Nat.leb_gt _ _)) by lia.
  rewrite length_app, Lb.
  replace (String.length (toString (n / 100)) + 2 - 2)%nat
    with (String.length (toString (n / 100))) by lia.
  rewrite substring_front. rewrite <- Lb at 1. rewrite substring_back.
  reflexivity.
Qed.

(** The nearest integer to x / D, for x not negative and D positive. *)
Lemma nearest_bounds (x D : Z) :
  0 <= x -> 0 < D ->
  0 <= (2 * x + D) / (2 * D)
  /\ Z.abs (2 * ((2 * x + D) / (2 * D) * D - x)) <= D.
Proof.
  intros Hx HD.
  pose proof (Z.div_mod (2 * x + D) (2 * D) ltac:(lia)) as Hdm.
  pose proof (Z.mod_pos_bound (2 * x + D) (2 * D) ltac:(lia)) as Hr.
  assert (0 <= (2 * x + D) / (2 * D)) by (apply Z.div_pos; lia).
  split; [assumption|]. nia.
Qed.

(** X12. A size of 0 to 2^53 bytes is shown in KB below 1024 * 1024 bytes,
    in MB below 1024^3 and in GB from there on, as the nearest whole number
    of KB, the nearest tenth of a MB or the nearest hundredth of a GB, with
    exactly that many digits behind the point. The unit is chosen before
    rounding, so the number shown can reach 1024 KB and 1024.0 MB. *)
Theorem formatSize_rounds_to_nearest (bytes : Z)
    (Hb : 0 <= bytes < 2 ^ 53) :
  (bytes < 1024 * 1024 ->
   exists n : Z,
     formatSize bytes = Some (toString n +:+ " KB")
     /\ Z.abs (2 * (n * 1024 - bytes)) <= 1024
     /\ 0 <= n <= 1024
     /\ (1024 * 1024 - 512 <= bytes -> n = 1024))
  /\ (1024 * 1024 <= bytes < 1024 * 1024 * 1024 ->
      exists n : Z,
        formatSize bytes =
          Some ((toString (n / 10) +:+ "." +:+ toString (n mod 10))
                  +:+ " MB")
        /\ Z.abs (2 * (n * (1024 * 1024) - bytes * 10)) <= 1024 * 1024
        /\ 10 <= n <= 10240)
  /\ (1024 * 1024 * 1024 <= bytes ->
      exists n : Z,
        formatSize bytes =
          Some ((toString (n / 100) +:+ "." +:+ pad (n mod 100)) +:+ " GB")
        /\ Z.abs (2 * (n * (1024 * 1024 * 1024) - bytes * 100))
             <= 1024 * 1024 * 1024
        /\ 100 <= n).
Proof.
  assert (Hsmall : forall D : Z, 1 <= D ->
            (10 ^ 21 * D <=? Z.abs bytes) = false).
  { intros D HD. apply Z.leb_gt. rewrite Z.abs_eq by lia.
    change (2 ^ 53) with 9007199254740992 in Hb.
    change (10 ^ 21) with 1000000000000000000000. nia. }
  assert (Hpos : (bytes <? 0) = false) by (apply Z.ltb_ge; lia).
  split; [|split]; intros Hr.
  - exists ((2 * bytes + 1024) / (2 * 1024)).
    destruct (nearest_bounds bytes 1024) as (Hn0 & Hn); [lia|lia|].
    split.
    { unfold formatSize, toFixed.
      rewrite (proj2 (Z.ltb_lt _ _)) by lia.
      rewrite Hsmall, Hpos by lia. rewrite Z.abs_eq by lia.
      cbn [Z.of_nat Z.pow]. rewrite Z.mul_1_r. reflexivity. }
    split; [exact Hn|].
    pose proof (Z.div_mod (2 * bytes + 1024) (2 * 1024) ltac:(lia)).
    pose proof (Z.mod_pos_bound (2 * bytes + 1024) (2 * 1024) ltac:(lia)).
    lia.
  - exists ((2 * (bytes * 10) + 1024 * 1024) / (2 * (1024 * 1024))).
    destruct (nearest_bounds (bytes * 10) (1024 * 1024)) as (Hn0 & Hn);
      [lia|lia|].
    pose proof (Z.div_mod (2 * (bytes * 10) + 1024 * 1024)
                  (2 * (1024 * 1024)) ltac:(lia)).
    pose proof (Z.mod_pos_bound (2 * (bytes * 10) + 1024 * 1024)
                  (2 * (1024 * 1024)) ltac:(lia)).
    assert (Hrange : 10 <= (2 * (bytes * 10) + 1024 * 1024)
                            / (2 * (1024 * 1024)) <= 10240) by lia.
    split; [|split; [exact Hn|exact Hrange]].
    unfold formatSize, toFixed.
    rewrite (proj2 (Z.ltb_ge _ _)) by lia.
    rewrite (proj2 (Z.ltb_lt _ _)) by lia.
    rewrite Hsmall, Hpos by lia. rewrite Z.abs_eq by lia.
    change (10 ^ Z.of_nat 1) with 10.
    rewrite place_point_1 by lia. reflexivity.
  - exists ((2 * (bytes * 100) + 1024 * 1024 * 1024)
            / (2 * (1024 * 1024 * 1024))).
    destruct (nearest_bounds (bytes * 100) (1024 * 1024 * 1024))
      as (Hn0 & Hn); [lia|lia|].
    pose proof (Z.div_mod (2 * (bytes * 100) + 1024 * 1024 * 1024)
                  (2 * (1024 * 1024 * 1024)) ltac:(lia)).
    pose proof (Z.mod_pos_bound (2 * (bytes * 100) + 1024 * 1024 * 1024)
                  (2 * (1024 * 1024 * 1024)) ltac:(lia)).
    assert (Hrange : 100 <= (2 * (bytes * 100) + 1024 * 1024 * 1024)
                             / (2 * (1024 * 1024 * 1024))) by lia.
    split; [|split; [exact Hn|exact Hrange]].
    unfold formatSize, toFixed.
    rewrite (proj2 (Z.ltb_ge bytes (1024 * 1024))) by lia.
    rewrite (proj2 (Z.ltb_ge bytes (1024 * 1024 * 1024))) by lia.
    rewrite Hsmall, Hpos by lia. rewrite Z.abs_eq by lia.
    change (10 ^ Z.of_nat 2) with 100.
    rewrite place_point_2 by lia. reflexivity.
Qed.

(** One byte short of 1024 * 1024. *)
Lemma formatSize_rounds_to_nearest_witness :
  0 <= 1048575 < 2 ^ 53
  /\ exists n : Z,
       formatSize 1048575 = Some (toString n +:+ " KB")
       /\ Z.abs (2 * (n * 1024 - 1048575)) <= 1024
       /\ 0 <= n <= 1024
       /\ (1024 * 1024 - 512 <= 1048575 -> n = 1024).
Proof.
  assert (Hb : 0 <= 1048575 < 2 ^ 53) by (cbn; lia).
  split; [exact Hb|].
  exact (proj1 (formatSize_rounds_to_nearest 1048575 Hb) ltac:(lia)).
Defined.

End LibraryFormatFacts.

(** ** The Export page *)

Module ExportPageFacts.
Import Pages ExportPage PagesDouble.

Lemma is_empty_spec (s : string) : is_empty s = true <-> s = "".
Proof. destruct s; cbn; split; congruence. Qed.

Lemma is_empty_false (s : string) : s <> "" -> is_empty s = false.
Proof. destruct s; cbn; congruence. Qed.

Section AnyServer.
Context {B : Type} `{Server B}.

(** X13. Without an input file or without a chosen preset [handleExport]
    does nothing: no command is invoked and no signal is written. The
    Export button is disabled only for a missing file, so with a file but
    no preset the button can be clicked and the click has no effect. *)
Theorem export_needs_file_and_preset (st : Store) (b : B)
    (Hmiss : inputFile st = "" \/ selectedPreset st = "") :
  perform handleExport (start st) b = (start st, b, Resolved tt)
  /\ click_export st = (st, Completed tt)
  /\ (inputFile st <> "" -> exporting st = false ->
      export_disabled st = false).
Proof.
  assert (Hfirst : first_await handleExport st = (st, Completed tt)).
  { unfold handleExport. cbn.
    destruct (is_empty (inputFile st)) eqn:Ei; [reflexivity|].
    cbn. destruct (is_empty (selectedPreset st)) eqn:Ep; [reflexivity|].
    destruct Hmiss as [Hm|Hm]; apply is_empty_spec in Hm; congruence. }
  split; [|split].
  - unfold handleExport. cbn.
    destruct (is_empty (inputFile st)) eqn:Ei; [reflexivity|].
    cbn. destruct (is_empty (selectedPreset st)) eqn:Ep; [reflexivity|].
    destruct Hmiss as [Hm|Hm]; apply is_empty_spec in Hm; congruence.
  - unfold click_export. rewrite Hfirst.
    destruct (export_disabled st); reflexivity.
  - intros Hi He. unfold export_disabled.
    rewrite He, is_empty_false by exact Hi. reflexivity.
Qed.

(** X14. With a file and a preset, [handleExport] marks the page as
    exporting and clears the former result before it awaits [start_export],
    which it invokes with the file, the preset and the two trims as they
    stand and with no output path. In the store it leaves at the [await]
    the Export button is disabled, so a second click invokes nothing. *)
Theorem export_marks_in_flight (st : Store)
    (Hi : inputFile st <> "") (Hp : selectedPreset st <> "") :
  first_await handleExport st =
    (setExportResult None (setExporting true st),
     AwaitsOne
       (start_export
          (mkExportParams (inputFile st) (selectedPreset st) (trimStart st)
             (trimEnd st) None)))
  /\ export_disabled (fst (first_await handleExport st)) = true
  /\ click_export (fst (first_await handleExport st)) =
       (fst (first_await handleExport st), Completed tt).
Proof.
  assert (Hfirst : first_await handleExport st =
    (setExportResult None (setExporting true st),
     AwaitsOne
       (start_export
          (mkExportParams (inputFile st) (selectedPreset st) (trimStart st)
             (trimEnd st) None)))).
  { unfold handleExport. cbn.
    rewrite (is_empty_false _ Hi). cbn.
    rewrite (is_empty_false _ Hp). reflexivity. }
  rewrite Hfirst. split; [reflexivity|]. split; reflexivity.
Qed.

(** X15. An export that the back end turns down is caught: the page leaves
    the exporting state and the call itself completes. An export that the
    back end accepts leaves the page exporting with no result, and the path
    it resolved with is not used: the result is shown, and the exporting
    state left, only when the "export-completed" event arrives, and only on
    a page whose listener is registered. *)
Theorem export_outcome (st : Store) (b b' : B)
    (r : Settled string)
    (Hi : inputFile st <> "") (Hp : selectedPreset st <> "")
    (Hserve :
       serve (start_export
                (mkExportParams (inputFile st) (selectedPreset st)
                   (trimStart st) (trimEnd st) None)) b = (b', r)) :
  perform handleExport (start st) b =
    (mkTrace
       (setExporting (match r with Resolved _ => true | Rejected _ => false
                      end)
          (setExportResult None st))
       []
       [start_export
          (mkExportParams (inputFile st) (selectedPreset st) (trimStart st)
             (trimEnd st) None)],
     b', Resolved tt)
  /\ (forall (path : string) (st' : Store),
        listening st' = true ->
        exporting (deliver_completed path st') = false
        /\ exportResult (deliver_completed path st') = Some path)
  /\ (forall (path : string) (st' : Store),
        listening st' = false -> deliver_completed path st' = st').
Proof.
  split; [|split].
  - unfold handleExport, try_request. cbn.
    rewrite (is_empty_false _ Hi). cbn.
    rewrite (is_empty_false _ Hp). cbn.
    rewrite Hserve. destruct r; reflexivity.
  - intros path st' Hl. unfold deliver_completed. rewrite Hl.
    split; reflexivity.
  - intros path st' Hl. unfold deliver_completed. rewrite Hl. reflexivity.
Qed.

(** X16. When the Export page mounts and both calls resolve, the presets
    are the answered list, the first of them, if there is one, becomes the
    chosen preset (with an empty list the choice stays as it was), and the
    "export-completed" listener is registered last. When the preset query
    is rejected, mounting stops there: nothing is written, [listen] is not
    invoked and the listener is never registered. *)
Theorem export_mount_selects_first (st : Store) (b : B) :
  (forall (b1 b2 : B) (ps : list ExportPreset.t),
     serve get_export_presets b = (b1, Resolved ps) ->
     serve listen_export_completed b1 = (b2, Resolved tt) ->
     perform onMount (start st) b =
       (mkTrace
          (setListening true
             (match ps with
              | first :: _ =>
                  setSelectedPreset (ExportPreset.id first)
                    (setPresets ps st)
              | [] => setPresets ps st
              end))
          [] [get_export_presets; listen_export_completed],
        b2, Resolved tt))
  /\ (forall (b1 : B) (e : string),
        serve get_export_presets b = (b1, Rejected e) ->
        perform onMount (start st) b =
          (mkTrace st [] [get_export_presets], b1, Rejected e)).
Proof.
  split.
  - intros b1 b2 ps Hps Hl. unfold onMount, request. cbn. rewrite Hps. cbn.
    destruct ps as [|first rest]; cbn; rewrite Hl; reflexivity.
  - intros b1 e Hrej. unfold onMount, request. cbn. rewrite Hrej.
    reflexivity.
Qed.

End AnyServer.

(** A file is entered, no preset is chosen. *)
Lemma export_needs_file_and_preset_witness :
  (inputFile (setInputFile "clip.mkv" initial) = ""
   \/ selectedPreset (setInputFile "clip.mkv" initial) = "")
  /\ export_disabled (setInputFile "clip.mkv" initial) = false
  /\ click_export (setInputFile "clip.mkv" initial) =
       (setInputFile "clip.mkv" initial, Completed tt).
Proof.
  assert (Hmiss : inputFile (setInputFile "clip.mkv" initial) = ""
                  \/ selectedPreset (setInputFile "clip.mkv" initial) = "").
  { right. reflexivity. }
  split; [exact Hmiss|]. split; [reflexivity|].
  exact (proj1 (proj2
    (export_needs_file_and_preset (setInputFile "clip.mkv" initial)
       (mkScripted [] JNull false) Hmiss))).
Defined.

Lemma export_marks_in_flight_witness :
  inputFile ready <> "" /\ selectedPreset ready <> ""
  /\ export_disabled (fst (first_await handleExport ready)) = true.
Proof.
  assert (Hi : inputFile ready <> "") by discriminate.
  assert (Hp : selectedPreset ready <> "") by discriminate.
  split; [exact Hi|]. split; [exact Hp|].
  exact (proj1 (proj2 (export_marks_in_flight ready Hi Hp))).
Defined.

(** An export that fails, on the page that is ready. *)
Lemma export_outcome_witness :
  inputFile ready <> "" /\ selectedPreset ready <> ""
  /\ serve (start_export (mkExportParams "clip.mkv" "youtube" None None
                            None))
       (mkScripted [youtube] JNull true) =
     (mkScripted [youtube] JNull true, Rejected "ExportFailed")
  /\ perform handleExport (start ready) (mkScripted [youtube] JNull true) =
     (mkTrace ready []
        [start_export (mkExportParams "clip.mkv" "youtube" None None None)],
      mkScripted [youtube] JNull true, Resolved tt).
Proof.
  assert (Hi : inputFile ready <> "") by discriminate.
  assert (Hp : selectedPreset ready <> "") by discriminate.
  split; [exact Hi|]. split; [exact Hp|]. split; [reflexivity|].
  exact (proj1 (export_outcome ready (mkScripted [youtube] JNull true)
                  (mkScripted [youtube] JNull true)
                  (Rejected "ExportFailed") Hi Hp eq_refl)).
Defined.

(** Mounting against a back end that holds one preset. *)
Lemma export_mount_selects_first_witness :
  serve get_export_presets (mkScripted [youtube] JNull false) =
    (mkScripted [youtube] JNull false, Resolved [youtube])
  /\ perform onMount (start initial) (mkScripted [youtube] JNull false) =
       (mkTrace (mkStore [youtube] "youtube" "" None None false None true)
          [] [get_export_presets; listen_export_completed],
        mkScripted [youtube] JNull false, Resolved tt).
Proof.
  split; [reflexivity|].
  exact (proj1 (export_mount_selects_first initial
                  (mkScripted [youtube] JNull false))
           _ _ [youtube] eq_refl eq_refl).
Defined.

End ExportPageFacts.

(** ** The Library page: loading and searching *)

Module LibrarySearchFacts.
Import Pages LibraryPage LibrarySearch PagesDouble.

Section AnyServer.
Context {B : Type} `{Server B}.
Context (trim : string -> string).

(** X17. [handleSearch] invokes exactly one command: with a query that is
    blank after trimming it reloads the whole list with [get_recordings],
    otherwise it searches for the trimmed query; an empty search string is
    never sent. The answer replaces the list as a whole, a rejection leaves
    the list as it was, and the query text is not written. *)
Theorem search_sends_trimmed_or_reloads (st : Store) (b : B) :
  commands (fst (fst (perform (handleSearch trim) (start st) b))) =
    [if ExportPage.is_empty (trim (query st))
     then get_recordings None None
     else search_recordings (trim (query st))]
  /\ (search_recordings ""
        ∉ commands (fst (fst (perform (handleSearch trim) (start st) b))))
  /\ query (signals (fst (fst (perform (handleSearch trim) (start st) b))))
     = query st
  /\ (forall (b' : B) (recs : list Recording),
        trim (query st) = "" ->
        serve (get_recordings None None) b = (b', Resolved recs) ->
        perform (handleSearch trim) (start st) b =
          (mkTrace (mkStore recs (query st)) []
             [get_recordings None None], b', Resolved tt))
  /\ (forall (b' : B) (results : list Recording),
        trim (query st) <> "" ->
        serve (search_recordings (trim (query st))) b
          = (b', Resolved results) ->
        perform (handleSearch trim) (start st) b =
          (mkTrace (mkStore results (query st)) []
             [search_recordings (trim (query st))], b', Resolved tt))
  /\ (forall e : string,
        snd (perform (handleSearch trim) (start st) b) = Rejected e ->
        signals (fst (fst (perform (handleSearch trim) (start st) b)))
          = st).
Proof.
  unfold handleSearch, request. cbn.
  destruct (ExportPage.is_empty (trim (query st))) eqn:E; cbn.
  - destruct (serve (get_recordings None None) b) as [b1 [recs|e1]] eqn:Es;
      cbn.
    + repeat split.
      * rewrite list_elem_of_singleton. discriminate.
      * intros b' recs' _ [= <- <-]. reflexivity.
      * intros b' results Hne. destruct (trim (query st)); [congruence|].
        discriminate.
      * discriminate.
    + repeat split.
      * rewrite list_elem_of_singleton. discriminate.
      * intros b' recs' _ [=].
      * intros b' results Hne. destruct (trim (query st)); [congruence|].
        discriminate.
  - assert (Hne : trim (query st) <> "").
    { destruct (trim (query st)); [discriminate|congruence]. }
    destruct (serve (search_recordings (trim (query st))) b)
      as [b1 [results|e1]] eqn:Es; cbn.
    + repeat split.
      * rewrite list_elem_of_singleton. congruence.
      * intros b' recs' Hq. congruence.
      * intros b' results' _ [= <- <-]. reflexivity.
      * discriminate.
    + repeat split.
      * rewrite list_elem_of_singleton. congruence.
      * intros b' recs' Hq. congruence.
      * intros b' results' _ [=].
Qed.

End AnyServer.
End LibrarySearchFacts.

(** ** The Settings page *)

Module SettingsPageFacts.
Import Pages SettingsPage PagesDouble.

Section AnyServer.
Context {B : Type} `{Server B}.

(** X18. Mounting the Settings page invokes the three queries in every
    case, all before any answer is used. The three signals are written only
    when all three resolve, each with its answer; when any of them is
    rejected none is written, also not the ones whose query resolved, and
    the mount is rejected. *)
Theorem settings_mount_all_or_nothing (st : Store) (b b1 b2 b3 : B)
    (r1 : Settled JsValue) (r2 : Settled (list EncoderInfo.t))
    (r3 : Settled (list AudioSource.t))
    (H1 : serve get_config b = (b1, r1))
    (H2 : serve get_encoders b1 = (b2, r2))
    (H3 : serve get_audio_sources b2 = (b3, r3)) :
  commands (fst (fst (perform onMount (start st) b))) =
    [get_config; get_encoders; get_audio_sources]
  /\ snd (fst (perform onMount (start st) b)) = b3
  /\ match r1, r2, r3 with
     | Resolved c, Resolved e, Resolved a =>
         signals (fst (fst (perform onMount (start st) b))) =
           setAudioSources a (setEncoders e (setConfig c st))
         /\ snd (perform onMount (start st) b) = Resolved tt
     | _, _, _ =>
         signals (fst (fst (perform onMount (start st) b))) = st
         /\ exists err : string,
              snd (perform onMount (start st) b) = Rejected err
     end.
Proof.
  unfold onMount. cbn. rewrite H1, H2, H3.
  destruct r1 as [c|e1], r2 as [e|e2], r3 as [a|e3]; cbn;
    repeat split; eauto.
Qed.

(** X19. [handleSave] does nothing while the config is falsy (not loaded).
    Otherwise it sends the config as it stands; when the back end accepts
    it the page shows "Saved!" and one timer of 2000 ms is set whose
    callback takes the mark back and changes nothing else; when the back
    end rejects it the mark is not set and no timer is set. *)
Theorem save_marks_saved_for_two_seconds (st : Store) (b : B) :
  (truthy (config st) = false ->
   perform handleSave (start st) b = (start st, b, Resolved tt))
  /\ (forall b' : B,
        truthy (config st) = true ->
        serve (update_config (config st)) b = (b', Resolved tt) ->
        perform handleSave (start st) b =
          (mkTrace (setSaved true st) [(2000, setSaved false)]
             [update_config (config st)], b', Resolved tt))
  /\ (forall (b' : B) (e : string),
        truthy (config st) = true ->
        serve (update_config (config st)) b = (b', Rejected e) ->
        perform handleSave (start st) b =
          (mkTrace st [] [update_config (config st)], b', Rejected e))
  /\ (forall st' : Store,
        saved (setSaved false st') = false
        /\ config (setSaved false st') = config st'
        /\ encoders (setSaved false st') = encoders st'
        /\ audioSources (setSaved false st') = audioSources st'
        /\ diagnostics (setSaved false st') = diagnostics st').
Proof.
  unfold handleSave, request, setTimeout. cbn.
  split; [|split; [|split]].
  - intros Ht. rewrite Ht. reflexivity.
  - intros b' Ht Hs. rewrite Ht. cbn. rewrite Hs. reflexivity.
  - intros b' e Ht Hs. rewrite Ht. cbn. rewrite Hs. destruct st; reflexivity.
  - intros st'. repeat split.
Qed.

End AnyServer.

(** X20. Each of the five inputs changes one setting and nothing else: the
    edited key of the edited section reads back as the new value, every
    other key of that section and every other section are as before, a
    section that was missing is created with the one key, and the other
    signals are untouched. A value that is not nullish is what the input
    shows afterwards. *)
Theorem edit_changes_one_setting (section key : string) (value : JsValue)
    (st : Store) :
  optional key (optional section (config (edit section key value st)))
    = value
  /\ (forall other : string,
        other <> section ->
        spread (config (edit section key value st)) !! other =
          spread (config st) !! other)
  /\ (forall other : string,
        other <> key ->
        spread (property section
                  (spread (config (edit section key value st)))) !! other
        = spread (property section (spread (config st))) !! other)
  /\ (spread (config st) !! section = None ->
      property section (spread (config (edit section key value st))) =
        JObj {[ key := value ]})
  /\ encoders (edit section key value st) = encoders st
  /\ audioSources (edit section key value st) = audioSources st
  /\ diagnostics (edit section key value st) = diagnostics st
  /\ saved (edit section key value st) = saved st
  /\ (forall fallback : JsValue,
        value <> JUndefined -> value <> JNull ->
        shown section key fallback (edit section key value st) = value)
  /\ (forall o : FpsOption,
        shown "recording" "fps" (JNum 60) (changeFps o st) =
          JNum (inject_Z (parseInt_fps o))).
Proof.
  assert (Hread : optional key
            (optional section (config (edit section key value st)))
            = value).
  { unfold edit, optional, property. cbn.
    rewrite lookup_insert_eq. cbn. rewrite lookup_insert_eq. reflexivity. }
  split; [exact Hread|].
  repeat split.
  - intros other Hne. unfold edit. cbn. apply lookup_insert_ne. congruence.
  - intros other Hne. unfold edit, property. cbn.
    rewrite lookup_insert_eq. cbn. apply lookup_insert_ne. congruence.
  - intros Hnone. unfold edit, property. cbn. rewrite lookup_insert_eq.
    cbn. rewrite Hnone. cbn. reflexivity.
  - intros fallback Hu Hn. unfold shown. rewrite Hread.
    destruct value; cbn; congruence.
  - intros o. unfold shown, changeFps, edit, optional, property. cbn.
    rewrite lookup_insert_eq. cbn. rewrite lookup_insert_eq. reflexivity.
Qed.

(** The audio query is turned down: the config that was answered is not
    written either. *)
Lemma settings_mount_all_or_nothing_witness :
  serve get_config (mkScripted [] (JObj ∅) true) =
    (mkScripted [] (JObj ∅) true, Resolved (JObj ∅))
  /\ serve get_audio_sources (mkScripted [] (JObj ∅) true) =
       (mkScripted [] (JObj ∅) true, Rejected "NoAudio")
  /\ signals (fst (fst (perform onMount (start initial)
                          (mkScripted [] (JObj ∅) true)))) = initial.
Proof.
  split; [reflexivity|]. split; [reflexivity|].
  exact (proj1 (proj2 (proj2
    (settings_mount_all_or_nothing initial
       (mkScripted [] (JObj ∅) true) (mkScripted [] (JObj ∅) true)
       (mkScripted [] (JObj ∅) true) (mkScripted [] (JObj ∅) true)
       (Resolved (JObj ∅)) (Resolved []) (Rejected "NoAudio")
       eq_refl eq_refl eq_refl)))).
Defined.

End SettingsPageFacts.
